(** * pgp-decryption: the Lambda handler of [index.js], embedded and verified

    The program is sequential glue code around three collaborators (the
    Secrets Manager client, the S3 client and the openpgp library).  The
    embedding follows [index.js] function by function:

    - JavaScript values that reach a truthiness test or a property read are
      modelled by [json] / [jsval] with [truthy] and [get_property];
    - the collaborators are interfaces (type classes) over an abstract world
      state [W]; every call is recorded as an [Event];
    - [async] functions are computations in the monad [M]: world passing,
      an event log and JavaScript exceptions ([try_catch] is try/catch).

    Strings are sequences of code units; the string operations of the program
    (split on '/', endsWith, slice, concatenation) act unit by unit. *)

From Stdlib Require Import String Ascii List ZArith QArith Bool Lia DecimalString.
From stdpp Require Import base strings gmap list.
Import ListNotations.

Local Open Scope string_scope.
Local Open Scope list_scope.

(** ** JavaScript strings *)

Module JsString.

(** [s.endsWith(suffix)] *)
Definition endsWith (s suffix : string) : bool :=
  let n := String.length s in
  let k := String.length suffix in
  (k <=? n)%nat && String.eqb (substring (n - k) k s) suffix.

(** [s.slice(start, end)], negative positions count from the end. *)
Definition slice (s : string) (start end_ : Z) : string :=
  let len := Z.of_nat (String.length s) in
  let from := if (start <? 0)%Z then Z.max (len + start) 0 else Z.min start len in
  let to := if (end_ <? 0)%Z then Z.max (len + end_) 0 else Z.min end_ len in
  substring (Z.to_nat from) (Z.to_nat (Z.max (to - from) 0)) s.

(** [s.split(sep)] for a one-unit separator: never the empty array. *)
Fixpoint split (sep : ascii) (s : string) : list string :=
  match s with
  | EmptyString => [EmptyString]
  | String c rest =>
      if Ascii.eqb c sep then EmptyString :: split sep rest
      else match split sep rest with
           | seg :: segs => String c seg :: segs
           | [] => [String c EmptyString]
           end
  end.

(** [a.pop()] read for its value: the last element, [undefined] on []. *)
Definition pop (a : list string) : option string := last a.

(** Template-literal rendering of a non-negative integer. *)
Definition of_nat (n : nat) : string := NilZero.string_of_uint (Nat.to_uint n).

End JsString.

(** ** JavaScript values *)

(** What [JSON.parse] can return. *)
#[local] Set Warnings "-register-all".
Inductive json : Type :=
| JNull
| JBool (b : bool)
| JNumber (n : Q)
| JString (s : string)
| JArray (elems : list json)
| JObject (members : list (string * json)).
#[local] Set Warnings "register-all".

(** Values held by the variables of the handler: [undefined], parsed data,
    or a built-in reached through a prototype. *)
Inductive jsval : Type :=
| VUndefined
| VJson (j : json)
| VBuiltin (name : string).

Definition VStr (s : string) : jsval := VJson (JString s).
Definition VNull : jsval := VJson JNull.

(** ToBoolean. *)
Definition truthy (v : jsval) : bool :=
  match v with
  | VUndefined => false
  | VJson JNull => false
  | VJson (JBool b) => b
  | VJson (JNumber n) => negb (Qeq_bool n 0)
  | VJson (JString s) => negb (String.eqb s "")
  | VJson (JArray _) => true
  | VJson (JObject _) => true
  | VBuiltin _ => true
  end.

(** Thrown values; only [message] is ever read by the program. *)
Inductive JsError : Type :=
| Error (msg : string)
| TypeError (msg : string)
| ReferenceError (msg : string)
| SyntaxError (msg : string).

Definition message (e : JsError) : string :=
  match e with
  | Error m | TypeError m | ReferenceError m | SyntaxError m => m
  end.

(** *** Property reads [o[k]] on parsed data *)

Definition Object_prototype : list string :=
  [ "constructor"; "hasOwnProperty"; "isPrototypeOf"; "propertyIsEnumerable";
    "toLocaleString"; "toString"; "valueOf"; "__proto__";
    "__defineGetter__"; "__defineSetter__"; "__lookupGetter__"; "__lookupSetter__" ].

Definition Array_prototype : list string :=
  [ "at"; "concat"; "constructor"; "copyWithin"; "entries"; "every"; "fill";
    "filter"; "find"; "findIndex"; "findLast"; "findLastIndex"; "flat";
    "flatMap"; "forEach"; "includes"; "indexOf"; "join"; "keys"; "lastIndexOf";
    "map"; "pop"; "push"; "reduce"; "reduceRight"; "reverse"; "shift"; "slice";
    "some"; "sort"; "splice"; "toLocaleString"; "toReversed"; "toSorted";
    "toSpliced"; "toString"; "unshift"; "values"; "with" ].

Definition String_prototype : list string :=
  [ "anchor"; "at"; "big"; "blink"; "bold"; "charAt"; "charCodeAt";
    "codePointAt"; "concat"; "constructor"; "endsWith"; "fixed"; "fontcolor";
    "fontsize"; "includes"; "indexOf"; "isWellFormed"; "italics";
    "lastIndexOf"; "link"; "localeCompare"; "match"; "matchAll"; "normalize";
    "padEnd"; "padStart"; "repeat"; "replace"; "replaceAll"; "search"; "slice";
    "small"; "split"; "startsWith"; "strike"; "sub"; "substr"; "substring";
    "sup"; "toLocaleLowerCase"; "toLocaleUpperCase"; "toLowerCase"; "toString";
    "toUpperCase"; "toWellFormed"; "trim"; "trimEnd"; "trimLeft"; "trimRight";
    "trimStart"; "valueOf" ].

Definition Number_prototype : list string :=
  [ "constructor"; "toExponential"; "toFixed"; "toLocaleString"; "toPrecision";
    "toString"; "valueOf" ].

Definition Boolean_prototype : list string :=
  [ "constructor"; "toString"; "valueOf" ].

(** The prototype chain of a parsed value, nearest first. *)
Definition prototype_chain (j : json) : list (string * list string) :=
  match j with
  | JNull => []
  | JBool _ => [("Boolean.prototype", Boolean_prototype); ("Object.prototype", Object_prototype)]
  | JNumber _ => [("Number.prototype", Number_prototype); ("Object.prototype", Object_prototype)]
  | JString _ => [("String.prototype", String_prototype); ("Object.prototype", Object_prototype)]
  | JArray _ => [("Array.prototype", Array_prototype); ("Object.prototype", Object_prototype)]
  | JObject _ => [("Object.prototype", Object_prototype)]
  end.

Definition has_name (k : string) (names : list string) : bool :=
  existsb (String.eqb k) names.

Fixpoint lookup_member (k : string) (members : list (string * json)) : option json :=
  match members with
  | [] => None
  | (k', v) :: rest => if String.eqb k k' then Some v else lookup_member k rest
  end.

(** An array index written canonically ("0", "1", ...) and below [len]. *)
Definition array_index (k : string) (len : nat) : option nat :=
  List.find (fun i => String.eqb (JsString.of_nat i) k) (seq 0 len).

Definition number_of_nat (n : nat) : json := JNumber (inject_Z (Z.of_nat n)).

Definition own_property (j : json) (k : string) : option jsval :=
  match j with
  | JObject members => VJson <$> lookup_member k members
  | JArray elems =>
      if String.eqb k "length" then Some (VJson (number_of_nat (length elems)))
      else VJson <$> (array_index k (length elems) ≫= fun i => elems !! i)
  | JString s =>
      if String.eqb k "length" then Some (VJson (number_of_nat (String.length s)))
      else (fun i => VStr (substring i 1 s)) <$> array_index k (String.length s)
  | _ => None
  end.

Fixpoint inherited_property (chain : list (string * list string)) (k : string) : jsval :=
  match chain with
  | [] => VUndefined
  | (proto, names) :: up =>
      if has_name k names then VBuiltin (proto +:+ "." +:+ k)
      else inherited_property up k
  end.

(** [j[k]]: own property, else the prototype chain, else [undefined];
    reading a property of [null] throws. *)
Definition get_property (j : json) (k : string) : JsError + jsval :=
  match j with
  | JNull => inl (TypeError ("Cannot read properties of null (reading '" +:+ k +:+ "')"))
  | _ => inr (match own_property j k with
              | Some v => v
              | None => inherited_property (prototype_chain j) k
              end)
  end.

(** ** Data of the program *)

(** [process.env]. *)
Abbreviation Env := (gmap string string).

(** [process.env.X] as a value. *)
Definition env_value (o : option string) : jsval :=
  match o with
  | Some s => VStr s
  | None => VUndefined
  end.

(** [a || b] on two environment reads. *)
Definition env_or (a b : option string) : option string :=
  if truthy (env_value a) then a else b.

(** [a || 'literal'] with a non-empty literal: always a string. *)
Definition env_or_default (a : option string) (d : string) : string :=
  match a with
  | Some s => if truthy (VStr s) then s else d
  | None => d
  end.

Abbreviation bytes := (list Byte.byte).

(** One element of [Contents] in a listObjectsV2 response. *)
Record ObjectDescriptor : Type := {
  Key : string;
  Size : Z;
  LastModified : Z
}.

(** The S3 and Secrets Manager responses, with the fields the program
    reads.  An optional member the response lacks reads as [undefined]
    ([None]).  The aws-sdk v2 client that [index.js] loads delivers every
    listing with its [Contents], empty when nothing matches; [None] stands
    for a client without that guarantee. *)
Record ListObjectsV2Output : Type := { Contents : option (list ObjectDescriptor) }.
Record GetObjectOutput : Type := { Body : bytes }.
Record SendData : Type := { Location : string; UploadedKey : string }.
Record GetSecretValueResponse : Type := { SecretString : option string }.

(** The object built by [getPGPPrivateKey]. *)
Module SecretData.
Record t : Type := { privateKey : jsval; passphrase : jsval }.
End SecretData.

(** The two object literals pushed to [results]. *)
Inductive ProcessingResult : Type :=
| Processed (originalFile decryptedFile : string) (size lastModified : Z)
| Failed (originalFile error status : string).

Definition originalFile (r : ProcessingResult) : string :=
  match r with
  | Processed k _ _ _ => k
  | Failed k _ _ => k
  end.

(** [r.error] *)
Definition error (r : ProcessingResult) : jsval :=
  match r with
  | Processed _ _ _ _ => VUndefined
  | Failed _ e _ => VStr e
  end.

(** The three objects the handler serialises as [body]. *)
Inductive ResponseBody : Type :=
| NoFilesBody (msg : string) (decryptedFiles : list ProcessingResult)
| SummaryBody (msg : string) (results : list ProcessingResult)
| ErrorBody (err msg : string).

(** [body] holds the argument of [JSON.stringify]. *)
Record Response : Type := { statusCode : Z; body : ResponseBody }.

(** ** Collaborators and effects *)

(** Calls made to the collaborators, with their plain arguments. *)
Inductive Event : Type :=
| EvGetSecretValue (SecretId : option string)
| EvListObjectsV2 (Bucket : string) (Prefix : option string)
| EvGetObject (Bucket Key : string)
| EvUpload (Bucket Key : string) (Body : bytes) (ContentType : string)
| EvReadPrivateKey (armoredKey : jsval)
| EvDecryptKey (passphrase : jsval)
| EvReadMessage (binaryMessage : bytes)
| EvDecrypt.

(** A call either throws or returns, and moves the world on. *)
Abbreviation Call W A := (W -> (JsError + A) * W).

Class SecretsManager (W : Type) : Type := {
  getSecretValue : option string -> Call W GetSecretValueResponse
}.

Class S3 (W : Type) : Type := {
  listObjectsV2 : string -> option string -> Call W ListObjectsV2Output;
  getObject : string -> string -> Call W GetObjectOutput;
  upload : string -> string -> bytes -> string -> Call W SendData
}.

Class OpenPGP (W : Type) : Type := {
  PrivateKey : Type;
  Message : Type;
  readPrivateKey : jsval -> Call W PrivateKey;
  decryptKey : PrivateKey -> jsval -> Call W PrivateKey;
  readMessage : bytes -> Call W Message;
  decrypt : Message -> PrivateKey -> Call W bytes
}.

Class Json : Type := {
  JSON_parse : string -> JsError + json
}.

(** The events a handler can be invoked with.  [JSON.stringify(event,
    null, 2)] gives the text of an event, or throws the [TypeError] of a
    value that has no JSON text (an object that refers to itself, a
    BigInt). *)
Class TriggerEvent (E : Type) : Type := {
  JSON_stringify : E -> JsError + string
}.

(** *** The monad of [async] functions *)

Inductive Completion (A : Type) : Type :=
| Normal (a : A)
| Throw (e : JsError).
Arguments Normal {A} a.
Arguments Throw {A} e.

Record Outcome (W A : Type) : Type := {
  completion : Completion A;
  world : W;
  events : list Event
}.
Arguments completion {W A} _.
Arguments world {W A} _.
Arguments events {W A} _.

Definition M (W A : Type) : Type := W -> Outcome W A.

Section Monad.
Context {W : Type}.

Definition ret {A} (a : A) : M W A :=
  fun w => {| completion := Normal a; world := w; events := [] |}.

Definition throw {A} (e : JsError) : M W A :=
  fun w => {| completion := Throw e; world := w; events := [] |}.

Definition bind {A B} (m : M W A) (k : A -> M W B) : M W B :=
  fun w =>
    let o := m w in
    match completion o with
    | Normal a =>
        let o' := k a (world o) in
        {| completion := completion o'; world := world o';
           events := events o ++ events o' |}
    | Throw e => {| completion := Throw e; world := world o; events := events o |}
    end.

(** [try { m } catch (error) { handler error }] *)
Definition try_catch {A} (m : M W A) (handler : JsError -> M W A) : M W A :=
  fun w =>
    let o := m w in
    match completion o with
    | Normal a => o
    | Throw e =>
        let o' := handler e (world o) in
        {| completion := completion o'; world := world o';
           events := events o ++ events o' |}
    end.

(** [await client.op(args).promise()], logged as [ev]. *)
Definition call {A} (ev : Event) (op : Call W A) : M W A :=
  fun w =>
    let '(r, w') := op w in
    {| completion := match r with inl e => Throw e | inr a => Normal a end;
       world := w'; events := [ev] |}.

(** A pure step that may throw. *)
Definition lift {A} (r : JsError + A) : M W A :=
  match r with
  | inl e => throw e
  | inr a => ret a
  end.

End Monad.

Notation "x <- m ;; k" := (bind m (fun x => k))
  (at level 100, m at next level, right associativity).

(** ** Identifier resolution in [uploadDecryptedFile] *)

(** What an identifier in scope is bound to: a string, or some object
    (a buffer, a client, a function, a module). *)
Inductive Binding : Type :=
| BString (s : string)
| BObject.

(** The bindings visible at line 109 of [index.js], innermost first: the
    locals declared so far, the four parameters, the module-level
    declarations, the module wrapper and the globals the file uses.  The
    constants of [handler] are local to [handler]; the Node global object
    has no [decryptedPrefix]. *)
Definition uploadDecryptedFile_scope
    (bucketName key encryptedPrefix fileName decryptedFileName : string)
    : list (string * Binding) :=
  [ ("fileName", BString fileName);
    ("decryptedFileName", BString decryptedFileName);
    ("bucketName", BString bucketName);
    ("key", BString key);
    ("decryptedContent", BObject);
    ("encryptedPrefix", BString encryptedPrefix);
    ("AWS", BObject); ("openpgp", BObject);
    ("secretsManager", BObject); ("s3", BObject);
    ("getPGPPrivateKey", BObject); ("listEncryptedFiles", BObject);
    ("downloadFileFromS3", BObject); ("uploadDecryptedFile", BObject);
    ("decryptFile", BObject);
    ("exports", BObject); ("require", BObject); ("module", BObject);
    ("__filename", BObject); ("__dirname", BObject);
    ("console", BObject); ("process", BObject) ].

Fixpoint resolve (scope : list (string * Binding)) (id : string) : JsError + Binding :=
  match scope with
  | [] => inl (ReferenceError (id +:+ " is not defined"))
  | (id', b) :: outer => if String.eqb id id' then inr b else resolve outer id
  end.

(** [`${x}`] *)
Definition template (b : Binding) : string :=
  match b with
  | BString s => s
  | BObject => "[object Object]"
  end.

(** ** Configuration (lines 180-189 of [index.js]) *)

Module Config.
Record t : Type := {
  bucketName : string;
  prefix : option string;
  secretName : option string;
  awsRegion : string;
  privateKey : option string;
  passphrase : option string;
  keyName : option string;
  encryptedPrefix : string;
  decryptedPrefix : string
}.

Definition read (env : Env) : t :=
  {| bucketName :=
       env_or_default (env_or (env !! "bucketName") (env !! "S3_BUCKET_NAME"))
                      "sftp-file-sync-vivien";
     prefix := env !! "S3_PREFIX";
     secretName := env_or (env !! "secretName") (env !! "SECRET_NAME");
     awsRegion := env_or_default (env !! "AWS_REGION") "ap-southeast-2";
     privateKey := env !! "privateKey";
     passphrase := env !! "passphrase";
     keyName := env !! "keyName";
     encryptedPrefix := env_or_default (env !! "encryptedPrefix") "encrypt_files/";
     decryptedPrefix := env_or_default (env !! "decryptedPrefix") "decrypt_files/" |}.
End Config.

(** ** The functions of [index.js] *)

Section Program.
Context {W : Type} `{!SecretsManager W, !S3 W, !OpenPGP W, !Json}.

Definition getPGPPrivateKey (secretName : option string) (keyName_arg : option string)
    : M W SecretData.t :=
  let keyName := default "pgp-key" keyName_arg in
  try_catch
    (result <- call (EvGetSecretValue secretName) (getSecretValue secretName) ;;
     match SecretString result with
     | Some s =>
         if truthy (VStr s) then
           secretData <- lift (JSON_parse s) ;;
           field <- lift (get_property secretData keyName) ;;
           if negb (truthy field) then
             throw (Error ("Secret does not contain " +:+ keyName +:+ " field"))
           else
             pass <- lift (get_property secretData "passphrase") ;;
             ret {| SecretData.privateKey := field;
                    SecretData.passphrase := if truthy pass then pass else VNull |}
         else throw (Error "Secret value is not a string")
     | None => throw (Error "Secret value is not a string")
     end)
    (fun error => throw (Error ("Failed to retrieve PGP private key: " +:+ message error))).

Definition listEncryptedFiles (bucketName : string) (prefix : option string)
    : M W (list ObjectDescriptor) :=
  try_catch
    (result <- call (EvListObjectsV2 bucketName prefix) (listObjectsV2 bucketName prefix) ;;
     (* console.log(`Found ${result.Contents.length} files`) *)
     _ <- lift (match Contents result with
                | Some contents => inr (length contents)
                | None => inl (TypeError "Cannot read properties of undefined (reading 'length')")
                end) ;;
     (* return result.Contents || [] *)
     ret (match Contents result with
          | Some contents => contents
          | None => []
          end))
    (fun error => throw (Error ("Failed to list files from S3: " +:+ message error))).

Definition downloadFileFromS3 (bucketName key : string) : M W bytes :=
  try_catch
    (result <- call (EvGetObject bucketName key) (getObject bucketName key) ;;
     ret (Body result))
    (fun error => throw (Error ("Failed to download file " +:+ key +:+ ": " +:+ message error))).

(** [fileName.endsWith('.gpg') ? fileName.slice(0, -4) : `${fileName}.decrypted`] *)
Definition decryptedFileName (fileName : string) : string :=
  if JsString.endsWith fileName ".gpg" then JsString.slice fileName 0 (-4)
  else fileName +:+ ".decrypted".

Definition uploadDecryptedFile (bucketName key : string) (decryptedContent : bytes)
    (encryptedPrefix : string) : M W SendData :=
  try_catch
    (fileName <- lift (match JsString.pop (JsString.split "/" key) with
                       | Some f => inr f
                       | None => inl (TypeError "Cannot read properties of undefined (reading 'endsWith')")
                       end) ;;
     let decryptedFileName := decryptedFileName fileName in
     decryptedPrefix <- lift (resolve (uploadDecryptedFile_scope bucketName key encryptedPrefix
                                         fileName decryptedFileName) "decryptedPrefix") ;;
     let decryptedKey := template decryptedPrefix +:+ decryptedFileName in
     result <- call (EvUpload bucketName decryptedKey decryptedContent "application/octet-stream")
                    (upload bucketName decryptedKey decryptedContent "application/octet-stream") ;;
     ret result)
    (fun error => throw (Error ("Failed to upload decrypted file: " +:+ message error))).

Definition decryptFile (encryptedData : bytes) (privateKeyArmored passphrase : jsval)
    : M W bytes :=
  try_catch
    (privateKey <- call (EvReadPrivateKey privateKeyArmored) (readPrivateKey privateKeyArmored) ;;
     privateKey <- (if truthy passphrase
                    then call (EvDecryptKey passphrase) (decryptKey privateKey passphrase)
                    else ret privateKey) ;;
     msg <- call (EvReadMessage encryptedData) (readMessage encryptedData) ;;
     decryptedData <- call EvDecrypt (decrypt msg privateKey) ;;
     ret decryptedData)
    (fun error => throw (Error ("Failed to decrypt file: " +:+ message error))).

(** *** [exports.handler] *)

(** Lines 203-216: the key and passphrase, from the environment or from
    Secrets Manager. *)
Definition handler_keys (cfg : Config.t) : M W (jsval * jsval) :=
  if truthy (env_value (Config.privateKey cfg)) then
    ret (env_value (Config.privateKey cfg), env_value (Config.passphrase cfg))
  else
    secretData <- getPGPPrivateKey (Config.secretName cfg) (Config.keyName cfg) ;;
    ret (SecretData.privateKey secretData, SecretData.passphrase secretData).

Section Loop.
Variables (bucketName : string) (pgpPrivateKey pgpPassphrase : jsval)
          (decryptedPrefix : string).

(** Lines 241-265: the [try] block of one iteration; [results] is the
    array as it stands, the value is the array after the block. *)
Definition process_try (file : ObjectDescriptor) (results : list ProcessingResult)
    : M W (list ProcessingResult) :=
  if JsString.endsWith (Key file) "/" then ret results
  else
    encryptedData <- downloadFileFromS3 bucketName (Key file) ;;
    decryptedData <- decryptFile encryptedData pgpPrivateKey pgpPassphrase ;;
    uploadResult <- uploadDecryptedFile bucketName (Key file) decryptedData decryptedPrefix ;;
    ret (results ++ [Processed (Key file) (UploadedKey uploadResult)
                               (Size file) (LastModified file)]).

(** Lines 240-274: one iteration, with its [catch]. *)
Definition process_file (file : ObjectDescriptor) (results : list ProcessingResult)
    : M W (list ProcessingResult) :=
  try_catch (process_try file results)
    (fun fileError => ret (results ++ [Failed (Key file) (message fileError) "failed"])).

(** Lines 239-275: [for (const file of files)]. *)
Fixpoint process_files (files : list ObjectDescriptor) (results : list ProcessingResult)
    : M W (list ProcessingResult) :=
  match files with
  | [] => ret results
  | file :: rest =>
      results' <- process_file file results ;;
      process_files rest results'
  end.
End Loop.

Definition successCount (results : list ProcessingResult) : nat :=
  length (List.filter (fun r => negb (truthy (error r))) results).

Definition failureCount (results : list ProcessingResult) : nat :=
  length (List.filter (fun r => truthy (error r)) results).

Definition summary_message (files : list ObjectDescriptor) (results : list ProcessingResult)
    : string :=
  "Processed " +:+ JsString.of_nat (length files) +:+ " files. Success: "
    +:+ JsString.of_nat (successCount results) +:+ ", Failures: "
    +:+ JsString.of_nat (failureCount results).

(** Lines 222-288: listing, the loop and the summary, once the key and
    passphrase are known. *)
Definition handler_process (cfg : Config.t) (keys : jsval * jsval) : M W Response :=
  let '(pgpPrivateKey, pgpPassphrase) := keys in
  files <- listEncryptedFiles (Config.bucketName cfg) (Config.prefix cfg) ;;
  if (length files =? 0)%nat then
    ret {| statusCode := 200;
           body := NoFilesBody "No files found to decrypt" [] |}
  else
    results <- process_files (Config.bucketName cfg) pgpPrivateKey pgpPassphrase
                             (Config.decryptedPrefix cfg) files [] ;;
    ret {| statusCode := 200;
           body := SummaryBody (summary_message files results) results |}.

(** Lines 179-288: the outer [try] block. *)
Definition handler_try (env : Env) : M W Response :=
  let cfg := Config.read env in
  keys <- handler_keys cfg ;;
  handler_process cfg keys.

(** Lines 179-300: the [try] statement with its [catch]. *)
Definition handler_try_catch (env : Env) : M W Response :=
  try_catch (handler_try env)
    (fun error =>
       ret {| statusCode := 500;
              body := ErrorBody "Internal server error" (message error) |}).

(** Lines 175-301: the exported handler.  Line 177 serialises [event] for
    the log before the [try] statement is entered, so an event that
    [JSON.stringify] throws on rejects the invocation; [context] is not
    used and [console] output is left out. *)
Definition handler {E : Type} `{!TriggerEvent E} (event : E) (env : Env) : M W Response :=
  _ <- lift (JSON_stringify event) ;;
  handler_try_catch env.

End Program.

(** ** Scripted collaborators

    Test doubles for concrete runs: every collaborator answers from a
    script; the world state counts the calls made so far. *)

Module Scripted.

Record Script : Type := {
  secret : option string -> JsError + GetSecretValueResponse;
  listing : string -> option string -> JsError + ListObjectsV2Output;
  object : string -> string -> JsError + GetObjectOutput;
  stored : string -> string -> JsError + SendData;
  parsed : list (string * json);
  key_passphrase : string
}.

Definition answer {A} (r : JsError + A) : Call nat A := fun n => (r, S n).

(** Two events: the empty object, and an object that holds a BigInt, for
    which [JSON.stringify] has no text. *)
Inductive Trigger : Type :=
| EmptyObject
| HoldsBigInt.

Definition trigger : TriggerEvent Trigger :=
  {| JSON_stringify event :=
       match event with
       | EmptyObject => inr "{}"
       | HoldsBigInt => inl (TypeError "Do not know how to serialize a BigInt")
       end |}.

Definition secretsManager (sc : Script) : SecretsManager nat :=
  {| getSecretValue id := answer (secret sc id) |}.

Definition s3 (sc : Script) : S3 nat :=
  {| listObjectsV2 b p := answer (listing sc b p);
     getObject b k := answer (object sc b k);
     upload b k _ _ := answer (stored sc b k) |}.

(** A toy PGP: an armored key is any non-empty string, a key is unlocked
    by [key_passphrase], a message is a non-empty byte string whose first
    byte is 1, and its plaintext is the rest. *)
Definition openpgp (sc : Script) : OpenPGP nat :=
  {| PrivateKey := string;
     Message := bytes;
     readPrivateKey v :=
       answer (match v with
               | VJson (JString s) =>
                   if String.eqb s "" then inl (Error "Misformed armored text") else inr s
               | _ => inl (Error "Misformed armored text")
               end);
     decryptKey k pass :=
       answer (match pass with
               | VJson (JString p) =>
                   if String.eqb p (key_passphrase sc) then inr k
                   else inl (Error "Incorrect key passphrase")
               | _ => inl (Error "Incorrect key passphrase")
               end);
     readMessage data :=
       answer (match data with
               | [] => inl (Error "Error during parsing")
               | _ => inr data
               end);
     decrypt m _ :=
       answer (match m with
               | Byte.x01 :: plain => inr plain
               | _ => inl (Error "Session key decryption failed.")
               end) |}.

Definition json (sc : Script) : Json :=
  {| JSON_parse s :=
       match lookup_member s (parsed sc) with
       | Some j => inr j
       | None => inl (SyntaxError "Unexpected token")
       end |}.

(** A bucket under "in/": a directory marker, two well-formed ciphertexts
    and one corrupted object. *)
Definition files : list ObjectDescriptor :=
  [ {| Key := "in/"; Size := 0; LastModified := 1700000000 |};
    {| Key := "in/a.gpg"; Size := 10; LastModified := 1700000001 |};
    {| Key := "in/b.gpg"; Size := 20; LastModified := 1700000002 |};
    {| Key := "in/c.txt"; Size := 30; LastModified := 1700000003 |} ].

Definition bucket : Script :=
  {| secret _ := inr {| SecretString := Some "{}" |};
     listing _ _ := inr {| Contents := Some files |};
     object _ k :=
       if String.eqb k "in/a.gpg" then inr {| Body := [Byte.x01; Byte.x68; Byte.x69] |}
       else if String.eqb k "in/b.gpg" then inr {| Body := [Byte.x02; Byte.x68] |}
       else if String.eqb k "in/c.txt" then inr {| Body := [Byte.x01] |}
       else inl (Error "The specified key does not exist.");
     stored b k := inr {| Location := "https://" +:+ b +:+ ".s3.amazonaws.com/" +:+ k;
                          UploadedKey := k |};
     parsed := [("{}", JObject [])];
     key_passphrase := "hunter2" |}.

Definition env : Env :=
  {[ "privateKey" := "ARMORED KEY"; "passphrase" := "hunter2";
     "bucketName" := "b"; "S3_PREFIX" := "in/"; "decryptedPrefix" := "out/" ]}.

(** The same bucket behind a listing call that answers [answer]. *)
Definition with_listing (sc : Script) (answer : JsError + ListObjectsV2Output) : Script :=
  {| secret := secret sc; listing _ _ := answer; object := object sc;
     stored := stored sc; parsed := parsed sc; key_passphrase := key_passphrase sc |}.

(** Nothing under the prefix: [Contents] is the empty array. *)
Definition empty_bucket : Script := with_listing bucket (inr {| Contents := Some [] |}).

(** The caller is not allowed to list the bucket. *)
Definition denied_bucket : Script := with_listing bucket (inl (Error "Access Denied")).

(** No bucket name configured. *)
Definition env_without_bucket : Env :=
  {[ "privateKey" := "ARMORED KEY"; "passphrase" := "hunter2"; "S3_PREFIX" := "in/" ]}.

(** No key override; the key field is named "toString". *)
Definition env_toString : Env :=
  {[ "secretName" := "pgp-key"; "keyName" := "toString";
     "bucketName" := "b"; "S3_PREFIX" := "in/" ]}.

(** The collaborators of each script. *)
Definition bucket_secretsManager : SecretsManager nat := secretsManager bucket.
Definition bucket_s3 : S3 nat := s3 bucket.
Definition bucket_openpgp : OpenPGP nat := openpgp bucket.
Definition bucket_json : Json := json bucket.

Definition empty_secretsManager : SecretsManager nat := secretsManager empty_bucket.
Definition empty_s3 : S3 nat := s3 empty_bucket.
Definition empty_openpgp : OpenPGP nat := openpgp empty_bucket.
Definition empty_json : Json := json empty_bucket.

Definition denied_secretsManager : SecretsManager nat := secretsManager denied_bucket.
Definition denied_s3 : S3 nat := s3 denied_bucket.
Definition denied_openpgp : OpenPGP nat := openpgp denied_bucket.
Definition denied_json : Json := json denied_bucket.

End Scripted.

(** ** The variant that shells out to gpg ([src/unnamed/part_000])

    The second handler of the repository (the JavaScript of
    [src/unnamed/part_000], from its line 166 on) decrypts with the [gpg]
    binary through [child_process.exec].  Its [listEncryptedFiles],
    [downloadFileFromS3] and summary code are the same text as in
    [index.js] and are shared; the functions that differ are embedded
    here.  Shell commands are calls on the world that are not logged as
    [Event]s. *)

Module GpgVariant.

(** What [execAsync] resolves to. *)
Record ExecOutput : Type := { stdout : string; stderr : string }.

Class Shell (W : Type) : Type := {
  execAsync : string -> Call W ExecOutput
}.

(** The two [Buffer] conversions the file uses. *)
Class NodeBuffer : Type := {
  toString_base64 : bytes -> string;
  Buffer_from : string -> bytes
}.

Section Program.
Context {W : Type} `{!SecretsManager W, !S3 W, !Shell W, !NodeBuffer}.

(** [await execAsync(command)] *)
Definition exec (command : string) : M W ExecOutput :=
  fun w =>
    let '(r, w') := execAsync command w in
    {| completion := match r with inl e => Throw e | inr a => Normal a end;
       world := w'; events := [] |}.

Definition getPGPPrivateKey (secretName_arg : option string) : M W string :=
  let secretName := default "pgp-key" secretName_arg in
  try_catch
    (result <- call (EvGetSecretValue (Some secretName)) (getSecretValue (Some secretName)) ;;
     match SecretString result with
     | Some s =>
         if truthy (VStr s) then ret s
         else throw (Error "Secret value is not a string")
     | None => throw (Error "Secret value is not a string")
     end)
    (fun error => throw (Error ("Failed to retrieve PGP private key: " +:+ message error))).

(** The destination is computed from the whole key:
    [key.endsWith('.gpg') ? key.slice(0, -4) : `${key}.decrypted`]. *)
Definition uploadDecryptedFile (bucketName key : string) (decryptedContent : bytes)
    : M W SendData :=
  try_catch
    (let decryptedKey := decryptedFileName key in
     result <- call (EvUpload bucketName decryptedKey decryptedContent "application/octet-stream")
                    (upload bucketName decryptedKey decryptedContent "application/octet-stream") ;;
     ret result)
    (fun error => throw (Error ("Failed to upload decrypted file: " +:+ message error))).

Definition importCommand (privateKeyArmored : string) : string :=
  "echo '" +:+ privateKeyArmored +:+ "' | gpg --import --batch --yes".

Definition decryptCommand (encryptedData : bytes) (passphrase : string) : string :=
  "echo '" +:+ toString_base64 encryptedData
    +:+ "' | base64 -d | gpg --decrypt --batch --yes --passphrase '" +:+ passphrase +:+ "'".

Definition decryptFileWithGPG (encryptedData : bytes) (privateKeyArmored passphrase : string)
    : M W bytes :=
  try_catch
    (_ <- exec (importCommand privateKeyArmored) ;;
     output <- exec (decryptCommand encryptedData passphrase) ;;
     ret (Buffer_from (stdout output)))
    (fun error => throw (Error ("Failed to decrypt file: " +:+ message error))).

Section Loop.
Variables (bucketName privateKey passphrase : string).

Definition process_try (file : ObjectDescriptor) (results : list ProcessingResult)
    : M W (list ProcessingResult) :=
  if JsString.endsWith (Key file) "/" then ret results
  else
    encryptedData <- downloadFileFromS3 bucketName (Key file) ;;
    decryptedData <- decryptFileWithGPG encryptedData privateKey passphrase ;;
    uploadResult <- uploadDecryptedFile bucketName (Key file) decryptedData ;;
    ret (results ++ [Processed (Key file) (UploadedKey uploadResult)
                               (Size file) (LastModified file)]).

Definition process_file (file : ObjectDescriptor) (results : list ProcessingResult)
    : M W (list ProcessingResult) :=
  try_catch (process_try file results)
    (fun fileError => ret (results ++ [Failed (Key file) (message fileError) "failed"])).

Fixpoint process_files (files : list ObjectDescriptor) (results : list ProcessingResult)
    : M W (list ProcessingResult) :=
  match files with
  | [] => ret results
  | file :: rest =>
      results' <- process_file file results ;;
      process_files rest results'
  end.
End Loop.

(** The configuration is written in the handler; only the passphrase
    comes from the environment. *)
Definition handler_try (env : Env) : M W Response :=
  let bucketName := "sftp-file-sync-vivien" in
  let prefix := "sync-files/" in
  let secretName := "pgp-key" in
  let passphrase := env_or_default (env !! "PGP_PASSPHRASE") "default-passphrase" in
  privateKey <- getPGPPrivateKey (Some secretName) ;;
  files <- listEncryptedFiles bucketName (Some prefix) ;;
  if (length files =? 0)%nat then
    ret {| statusCode := 200;
           body := NoFilesBody "No files found to decrypt" [] |}
  else
    results <- process_files bucketName privateKey passphrase files [] ;;
    ret {| statusCode := 200;
           body := SummaryBody (summary_message files results) results |}.

(** Lines 318-406 of [part_000]: the [try] statement with its [catch]. *)
Definition handler_try_catch (env : Env) : M W Response :=
  try_catch (handler_try env)
    (fun error =>
       ret {| statusCode := 500;
              body := ErrorBody "Internal server error" (message error) |}).

(** Lines 314-407 of [part_000]: the exported handler; line 316
    serialises [event] before the [try] statement, as in [index.js]. *)
Definition handler {E : Type} `{!TriggerEvent E} (event : E) (env : Env) : M W Response :=
  _ <- lift (JSON_stringify event) ;;
  handler_try_catch env.

End Program.

(** *** Scripted collaborators for the variant *)

Definition files : list ObjectDescriptor :=
  [ {| Key := "sync-files/"; Size := 0; LastModified := 1700000000 |};
    {| Key := "sync-files/a.gpg"; Size := 10; LastModified := 1700000001 |};
    {| Key := "sync-files/b.txt"; Size := 20; LastModified := 1700000002 |};
    {| Key := "sync-files/c.gpg"; Size := 30; LastModified := 1700000003 |} ].

(** Objects a.gpg and b.txt exist, c.gpg has been removed since the
    listing; uploads succeed. *)
Definition script : Scripted.Script :=
  {| Scripted.secret _ := inr {| SecretString := Some "ARMORED KEY" |};
     Scripted.listing _ _ := inr {| Contents := Some files |};
     Scripted.object _ k :=
       if String.eqb k "sync-files/a.gpg" then inr {| Body := [Byte.x01; Byte.x68; Byte.x69] |}
       else if String.eqb k "sync-files/b.txt" then inr {| Body := [Byte.x02; Byte.x68] |}
       else inl (Error "The specified key does not exist.");
     Scripted.stored b k :=
       inr {| Location := "https://" +:+ b +:+ ".s3.amazonaws.com/" +:+ k; UploadedKey := k |};
     Scripted.parsed := [];
     Scripted.key_passphrase := "hunter2" |}.

Definition script_secretsManager : SecretsManager nat := Scripted.secretsManager script.
Definition script_s3 : S3 nat := Scripted.s3 script.

(** Base64 of the two scripted bodies. *)
Definition script_buffer : NodeBuffer :=
  {| toString_base64 data :=
       match data with
       | [Byte.x01; Byte.x68; Byte.x69] => "AWhp"
       | [Byte.x02; Byte.x68] => "Amg="
       | _ => ""
       end;
     Buffer_from s := list_byte_of_string s |}.

(** A shell in which the key import works and gpg decrypts "AWhp" to "hi"
    under the passphrase "hunter2". *)
Definition script_shell : Shell nat :=
  {| execAsync command :=
       Scripted.answer
         (if String.eqb command (@importCommand "ARMORED KEY")
          then inr {| stdout := ""; stderr := "gpg: key imported" |}
          else if String.eqb command (@decryptCommand script_buffer
                                        [Byte.x01; Byte.x68; Byte.x69] "hunter2")
          then inr {| stdout := "hi"; stderr := "" |}
          else inl (Error "Command failed: gpg: decryption failed: No secret key")) |}.

Definition env : Env := {[ "PGP_PASSPHRASE" := "hunter2" ]}.

End GpgVariant.

(** ** A scripted secrets store

    Secrets for concrete runs of key resolution, by secret name: a key
    with its passphrase, a key alone, a blank key, a binary secret, text
    that is not JSON, and the JSON text [null]. *)

Module Vault.

Definition quote : string := String "034"%char EmptyString.

(** A JSON member with a string value. *)
Definition member (k v : string) : string :=
  quote +:+ k +:+ quote +:+ ":" +:+ quote +:+ v +:+ quote.

Definition keyed_text : string :=
  "{" +:+ member "pgp-key" "ARMORED KEY" +:+ "," +:+ member "passphrase" "hunter2" +:+ "}".

Definition unlocked_text : string := "{" +:+ member "pgp-key" "ARMORED KEY" +:+ "}".

Definition blank_text : string := "{" +:+ member "pgp-key" "" +:+ "}".

Definition vault : Scripted.Script :=
  {| Scripted.secret id :=
       match id with
       | Some name =>
           if String.eqb name "pgp-key" then inr {| SecretString := Some keyed_text |}
           else if String.eqb name "unlocked" then inr {| SecretString := Some unlocked_text |}
           else if String.eqb name "blank" then inr {| SecretString := Some blank_text |}
           else if String.eqb name "binary" then inr {| SecretString := None |}
           else if String.eqb name "garbled" then inr {| SecretString := Some "not json" |}
           else if String.eqb name "null" then inr {| SecretString := Some "null" |}
           else inl (Error "Secrets Manager can't find the specified secret.")
       | None => inl (Error "Missing required key 'SecretId' in params")
       end;
     Scripted.listing := Scripted.listing Scripted.bucket;
     Scripted.object := Scripted.object Scripted.bucket;
     Scripted.stored := Scripted.stored Scripted.bucket;
     Scripted.parsed :=
       [ (keyed_text, JObject [("pgp-key", JString "ARMORED KEY");
                               ("passphrase", JString "hunter2")]);
         (unlocked_text, JObject [("pgp-key", JString "ARMORED KEY")]);
         (blank_text, JObject [("pgp-key", JString "")]);
         ("null", JNull) ];
     Scripted.key_passphrase := "hunter2" |}.

Definition vault_secretsManager : SecretsManager nat := Scripted.secretsManager vault.
Definition vault_s3 : S3 nat := Scripted.s3 vault.
Definition vault_openpgp : OpenPGP nat := Scripted.openpgp vault.
Definition vault_json : Json := Scripted.json vault.

(** No key override: the key comes from the secret called [name]. *)
Definition env_secret (name : string) : Env :=
  {[ "secretName" := name; "bucketName" := "b"; "S3_PREFIX" := "in/" ]}.

(** A key override without passphrase. *)
Definition env_key_only : Env :=
  {[ "privateKey" := "ARMORED KEY"; "bucketName" := "b"; "S3_PREFIX" := "in/" ]}.

(** A listing of directory markers only. *)
Definition markers : list ObjectDescriptor :=
  [ {| Key := "in/"; Size := 0; LastModified := 1700000000 |};
    {| Key := "in/archive/"; Size := 0; LastModified := 1700000004 |} ].

Definition marker_bucket : Scripted.Script :=
  Scripted.with_listing Scripted.bucket (inr {| Contents := Some markers |}).

Definition marker_secretsManager : SecretsManager nat := Scripted.secretsManager marker_bucket.
Definition marker_s3 : S3 nat := Scripted.s3 marker_bucket.
Definition marker_openpgp : OpenPGP nat := Scripted.openpgp marker_bucket.
Definition marker_json : Json := Scripted.json marker_bucket.

End Vault.

(** ** Statement vocabulary *)

(** The calls of a complete decryption, in program order. *)
Definition decrypt_calls (encryptedData : bytes) (privateKeyArmored passphrase : jsval)
    : list Event :=
  [EvReadPrivateKey privateKeyArmored]
    ++ (if truthy passphrase then [EvDecryptKey passphrase] else [])
    ++ [EvReadMessage encryptedData; EvDecrypt].

(** Classes of calls. *)
Definition is_fetch (ev : Event) : bool :=
  match ev with
  | EvGetSecretValue _ => true
  | _ => false
  end.

Definition is_listing (ev : Event) : bool :=
  match ev with
  | EvListObjectsV2 _ _ => true
  | _ => false
  end.

(** Download, decryption and upload calls. *)
Definition is_object_work (ev : Event) : bool :=
  match ev with
  | EvGetSecretValue _ | EvListObjectsV2 _ _ => false
  | _ => true
  end.

Definition download_of (ev : Event) : option (string * string) :=
  match ev with
  | EvGetObject b k => Some (b, k)
  | _ => None
  end.

(** The downloads of a log, in order: bucket and key. *)
Definition downloads (evs : list Event) : list (string * string) := omap download_of evs.

(** A call made after the download of an object, for that object. *)
Definition is_decrypt_or_upload (ev : Event) : bool :=
  match ev with
  | EvUpload _ _ _ _ | EvReadPrivateKey _ | EvDecryptKey _ | EvReadMessage _ | EvDecrypt => true
  | _ => false
  end.

(** Line 244: [file.Key.endsWith('/')]. *)
Definition is_directory (file : ObjectDescriptor) : bool := JsString.endsWith (Key file) "/".

(** The descriptors that are not directory markers, in listing order. *)
Definition objects (files : list ObjectDescriptor) : list ObjectDescriptor :=
  List.filter (fun file => negb (is_directory file)) files.

Definition is_upload (ev : Event) : bool :=
  match ev with
  | EvUpload _ _ _ _ => true
  | _ => false
  end.

(** A result that carries an [error] field. *)
Definition has_error_field (r : ProcessingResult) : bool :=
  match r with
  | Processed _ _ _ _ => false
  | Failed _ _ _ => true
  end.

(** The [error] field of a result, if it has one, is not the empty
    string. *)
Definition error_not_empty (r : ProcessingResult) : Prop :=
  match r with
  | Processed _ _ _ _ => True
  | Failed _ msg _ => msg <> ""
  end.

Definition is_decrypt_key (ev : Event) : bool :=
  match ev with
  | EvDecryptKey _ => true
  | _ => false
  end.

(** The key material a call was given, if it takes any, is [k] and [p]. *)
Definition carries_keys (k p : jsval) (ev : Event) : Prop :=
  match ev with
  | EvReadPrivateKey armoredKey => armoredKey = k
  | EvDecryptKey pass => pass = p /\ truthy p = true
  | _ => True
  end.

(** [s.includes(c)] for one unit. *)
Fixpoint has_unit (c : ascii) (s : string) : bool :=
  match s with
  | EmptyString => false
  | String c' rest => Ascii.eqb c' c || has_unit c rest
  end.

(** The segments before the last, each followed by the separator. *)
Fixpoint directory_of (sep : ascii) (segs : list string) : string :=
  match segs with
  | [] => EmptyString
  | [_] => EmptyString
  | seg :: rest => seg +:+ String sep (directory_of sep rest)
  end.

Definition upload_of (ev : Event) : option (string * string) :=
  match ev with
  | EvUpload b k _ _ => Some (b, k)
  | _ => None
  end.

(** The uploads of a log, in order: bucket and destination key. *)
Definition uploads (evs : list Event) : list (string * string) := omap upload_of evs.

(** An S3 call is made on bucket [b]. *)
Definition on_bucket (b : string) (ev : Event) : Prop :=
  match ev with
  | EvListObjectsV2 b' _ => b' = b
  | EvGetObject b' _ => b' = b
  | EvUpload b' _ _ _ => b' = b
  | _ => True
  end.

(** * Properties *)

(** ** The monad *)

Section MonadFacts.
Context {W : Type}.

Lemma bind_normal {A B} (m : M W A) (k : A -> M W B) w a :
  completion (m w) = Normal a ->
  bind m k w = {| completion := completion (k a (world (m w)));
                  world := world (k a (world (m w)));
                  events := events (m w) ++ events (k a (world (m w))) |}.
Proof. intros Hm. unfold bind. now rewrite Hm. Qed.

Lemma bind_throw {A B} (m : M W A) (k : A -> M W B) w e :
  completion (m w) = Throw e ->
  bind m k w = {| completion := Throw e; world := world (m w); events := events (m w) |}.
Proof. intros Hm. unfold bind. now rewrite Hm. Qed.

Lemma try_catch_normal {A} (m : M W A) (h : JsError -> M W A) w a :
  completion (m w) = Normal a -> try_catch m h w = m w.
Proof. intros Hm. unfold try_catch. now rewrite Hm. Qed.

Lemma try_catch_throw {A} (m : M W A) (h : JsError -> M W A) w e :
  completion (m w) = Throw e ->
  try_catch m h w = {| completion := completion (h e (world (m w)));
                       world := world (h e (world (m w)));
                       events := events (m w) ++ events (h e (world (m w))) |}.
Proof. intros Hm. unfold try_catch. now rewrite Hm. Qed.

(** A [catch] that rethrows under a prefix: the events are those of the
    [try] block, and whatever is thrown carries the prefix. *)
Lemma rethrow_events {A} (m : M W A) (p : string) w :
  events (try_catch m (fun error => throw (Error (p +:+ message error))) w) = events (m w).
Proof.
  unfold try_catch, throw. cbv zeta.
  destruct (completion (m w)); simpl; [done|]. apply app_nil_r.
Qed.

Lemma rethrow_world {A} (m : M W A) (p : string) w :
  world (try_catch m (fun error => throw (Error (p +:+ message error))) w) = world (m w).
Proof. unfold try_catch, throw. cbv zeta. now destruct (completion (m w)). Qed.

Lemma rethrow_completion {A} (m : M W A) (p : string) w :
  completion (try_catch m (fun error => throw (Error (p +:+ message error))) w)
  = match completion (m w) with
    | Normal a => Normal a
    | Throw cause => Throw (Error (p +:+ message cause))
    end.
Proof.
  unfold try_catch, throw. cbv zeta.
  now destruct (completion (m w)) eqn:Hm; simpl; rewrite ?Hm.
Qed.

End MonadFacts.

(** ** decryptFile *)

Section DecryptFile.
Context {W : Type} `{!OpenPGP W}.

(** C9. [decryptFile] calls the library in program order: readPrivateKey,
    then decryptKey exactly when the passphrase is truthy (so [null],
    [undefined] and the empty string skip it), then readMessage, then
    decrypt with the key obtained so far.  It returns the plaintext exactly
    when each of these calls succeeds on the world left by the previous one;
    after a success all the calls of [decrypt_calls] were made; otherwise the
    calls made are an initial segment of them and the function throws
    Error "Failed to decrypt file: <message of the failing call>". *)
Theorem decryptFile_steps (encryptedData : bytes) (privateKeyArmored passphrase : jsval) (w : W) :
  let o := decryptFile encryptedData privateKeyArmored passphrase w in
  events o `prefix_of` decrypt_calls encryptedData privateKeyArmored passphrase
  /\ (forall plain,
        completion o = Normal plain <->
        exists k1 w1 k2 w2 m w3,
          readPrivateKey privateKeyArmored w = (inr k1, w1)
          /\ (if truthy passphrase
              then decryptKey k1 passphrase w1 = (inr k2, w2)
              else (k2, w2) = (k1, w1))
          /\ readMessage encryptedData w2 = (inr m, w3)
          /\ decrypt m k2 w3 = (inr plain, world o))
  /\ (forall plain,
        completion o = Normal plain ->
        events o = decrypt_calls encryptedData privateKeyArmored passphrase)
  /\ (forall e,
        completion o = Throw e ->
        exists cause, e = Error ("Failed to decrypt file: " +:+ message cause)).
Proof.
  unfold decryptFile, decrypt_calls, try_catch, bind, call, ret, throw.
  destruct (readPrivateKey privateKeyArmored w) as [[e1|k1] w1] eqn:H1; simpl.
  { split_and!; try discriminate.
    - by eexists.
    - split; [discriminate|]. intros (?&?&?&?&?&?&?&_); discriminate.
    - intros e [= <-]. by eexists. }
  destruct (truthy passphrase) eqn:Hp; simpl.
  - destruct (decryptKey k1 passphrase w1) as [[e2|k2] w2] eqn:H2; simpl.
    { split_and!; try discriminate.
      - by eexists.
      - split; [discriminate|].
        intros (?&?&?&?&?&?&[= <- <-]&Hk&_). rewrite H2 in Hk. discriminate.
      - intros e [= <-]. by eexists. }
    destruct (readMessage encryptedData w2) as [[e3|m] w3] eqn:H3; simpl.
    { split_and!; try discriminate.
      - by eexists.
      - split; [discriminate|].
        intros (?&?&?&?&?&?&[= <- <-]&Hk&Hm&_). rewrite H2 in Hk.
        injection Hk as <- <-. rewrite H3 in Hm. discriminate.
      - intros e [= <-]. by eexists. }
    destruct (decrypt m k2 w3) as [[e4|plain] w4] eqn:H4; simpl.
    { split_and!; try discriminate.
      - by exists [].
      - split; [discriminate|].
        intros (?&?&?&?&?&?&[= <- <-]&Hk&Hm&Hd). rewrite H2 in Hk.
        injection Hk as <- <-. rewrite H3 in Hm. injection Hm as <- <-.
        rewrite H4 in Hd. discriminate.
      - intros e [= <-]. by eexists. }
    split_and!; try discriminate; try done.
    intros plain'. split.
    + intros [= <-]. by exists k1, w1, k2, w2, m, w3.
    + intros (?&?&?&?&?&?&[= <- <-]&Hk&Hm&Hd). rewrite H2 in Hk.
        injection Hk as <- <-. rewrite H3 in Hm. injection Hm as <- <-.
        rewrite H4 in Hd. by injection Hd as <-.
  - destruct (readMessage encryptedData w1) as [[e3|m] w3] eqn:H3; simpl.
    { split_and!; try discriminate.
      - by eexists.
      - split; [discriminate|].
        intros (?&?&?&?&?&?&[= <- <-]&[= <- <-]&Hm&_).
        rewrite H3 in Hm. discriminate.
      - intros e [= <-]. by eexists. }
    destruct (decrypt m k1 w3) as [[e4|plain] w4] eqn:H4; simpl.
    { split_and!; try discriminate.
      - by exists [].
      - split; [discriminate|].
        intros (?&?&?&?&?&?&[= <- <-]&[= <- <-]&Hm&Hd).
        rewrite H3 in Hm. injection Hm as <- <-. rewrite H4 in Hd. discriminate.
      - intros e [= <-]. by eexists. }
    split_and!; try discriminate; try done.
    intros plain'. split.
    + intros [= <-]. by exists k1, w1, k1, w1, m, w3.
    + intros (?&?&?&?&?&?&[= <- <-]&[= <- <-]&Hm&Hd).
        rewrite H3 in Hm. injection Hm as <- <-. rewrite H4 in Hd. by injection Hd as <-.
Qed.

End DecryptFile.

(** ** The decrypted file name *)

Lemma length_append (a b : string) :
  String.length (a +:+ b) = (String.length a + String.length b)%nat.
Proof. induction a as [|c a IH]; simpl; [done|]. by rewrite IH. Qed.

Lemma substring_all (b : string) : substring 0 (String.length b) b = b.
Proof. induction b as [|c b IH]; simpl; [done|]. by rewrite IH. Qed.

Lemma substring_tail (a b : string) :
  substring (String.length a) (String.length b) (a +:+ b) = b.
Proof. induction a as [|c a IH]; simpl; [apply substring_all|exact IH]. Qed.

Lemma substring_head (a b : string) : substring 0 (String.length a) (a +:+ b) = a.
Proof.
  induction a as [|c a IH]; simpl; [by destruct b|]. by rewrite IH.
Qed.

Lemma endsWith_append (a b : string) : JsString.endsWith (a +:+ b) b = true.
Proof.
  unfold JsString.endsWith. rewrite length_append.
  replace (String.length a + String.length b - String.length b)%nat
    with (String.length a) by lia.
  rewrite substring_tail, String.eqb_refl, andb_true_r.
  apply Nat.leb_le. lia.
Qed.

(** A name that ends with ".gpg" loses exactly that suffix. *)
Lemma decryptedFileName_gpg (base : string) : decryptedFileName (base +:+ ".gpg") = base.
Proof.
  unfold decryptedFileName. rewrite endsWith_append.
  unfold JsString.slice. rewrite length_append. cbn [String.length].
  replace (0 <? 0)%Z with false by done. replace (-4 <? 0)%Z with true by done.
  rewrite Z.min_l by lia. rewrite Z.max_l by lia. rewrite Z.max_l by lia.
  replace (Z.to_nat 0) with 0%nat by done.
  replace (Z.to_nat _) with (String.length base) by lia.
  apply substring_head.
Qed.

(** Any other name gets ".decrypted" appended. *)
Lemma decryptedFileName_other (fileName : string) :
  JsString.endsWith fileName ".gpg" = false ->
  decryptedFileName fileName = fileName +:+ ".decrypted".
Proof. unfold decryptedFileName. by intros ->. Qed.

(** ** The helpers around one collaborator call *)

Section Helpers.
Context {W : Type} `{!SecretsManager W, !S3 W, !OpenPGP W, !Json}.

Lemma split_not_nil sep s : JsString.split sep s <> [].
Proof.
  destruct s as [|c rest]; simpl; [done|].
  destruct (Ascii.eqb c sep); [done|]. now destruct (JsString.split sep rest).
Qed.

Lemma pop_split sep s : exists fileName, JsString.pop (JsString.split sep s) = Some fileName.
Proof.
  unfold JsString.pop. destruct (last (JsString.split sep s)) eqn:Hl; [by eexists|].
  apply last_None in Hl. by apply split_not_nil in Hl.
Qed.

(** Whatever its arguments, [uploadDecryptedFile] throws at the read of
    [decryptedPrefix] and never reaches [s3.upload]. *)
Lemma uploadDecryptedFile_throws bucketName key decryptedContent encryptedPrefix (w : W) :
  uploadDecryptedFile bucketName key decryptedContent encryptedPrefix w
  = {| completion :=
         Throw (Error "Failed to upload decrypted file: decryptedPrefix is not defined");
       world := w; events := [] |}.
Proof.
  unfold uploadDecryptedFile. destruct (pop_split "/" key) as [fileName ->].
  reflexivity.
Qed.

Lemma downloadFileFromS3_run bucketName key (w : W) :
  downloadFileFromS3 bucketName key w
  = match getObject bucketName key w with
    | (inr result, w') =>
        {| completion := Normal (Body result); world := w';
           events := [EvGetObject bucketName key] |}
    | (inl cause, w') =>
        {| completion :=
             Throw (Error ("Failed to download file " +:+ key +:+ ": " +:+ message cause));
           world := w'; events := [EvGetObject bucketName key] |}
    end.
Proof.
  unfold downloadFileFromS3, try_catch, bind, call, ret, throw.
  now destruct (getObject bucketName key w) as [[cause|result] w'].
Qed.

Lemma listEncryptedFiles_run bucketName prefix (w : W) :
  listEncryptedFiles bucketName prefix w
  = match listObjectsV2 bucketName prefix w with
    | (inr {| Contents := Some contents |}, w') =>
        {| completion := Normal contents; world := w';
           events := [EvListObjectsV2 bucketName prefix] |}
    | (inr {| Contents := None |}, w') =>
        {| completion :=
             Throw (Error "Failed to list files from S3: Cannot read properties of undefined (reading 'length')");
           world := w'; events := [EvListObjectsV2 bucketName prefix] |}
    | (inl cause, w') =>
        {| completion := Throw (Error ("Failed to list files from S3: " +:+ message cause));
           world := w'; events := [EvListObjectsV2 bucketName prefix] |}
    end.
Proof.
  unfold listEncryptedFiles, try_catch, bind, call, lift, ret, throw.
  now destruct (listObjectsV2 bucketName prefix w) as [[cause|[[contents|]]] w'].
Qed.

Lemma listEncryptedFiles_events bucketName prefix (w : W) :
  events (listEncryptedFiles bucketName prefix w) = [EvListObjectsV2 bucketName prefix].
Proof.
  rewrite listEncryptedFiles_run.
  now destruct (listObjectsV2 bucketName prefix w) as [[cause|[[contents|]]] w'].
Qed.

Lemma getPGPPrivateKey_events secretName keyName (w : W) :
  events (getPGPPrivateKey secretName keyName w) = [EvGetSecretValue secretName].
Proof.
  unfold getPGPPrivateKey. rewrite rethrow_events.
  unfold bind, call, lift, ret, throw.
  destruct (getSecretValue secretName w) as [[cause|[[s|]]] w']; simpl; try done.
  destruct (negb (String.eqb s "")); simpl; [|done].
  destruct (JSON_parse s) as [e|secretData]; simpl; [done|].
  destruct (get_property secretData (default "pgp-key" keyName)) as [e|field]; simpl; [done|].
  destruct (negb (truthy field)); simpl; [done|].
  now destruct (get_property secretData "passphrase").
Qed.

Lemma getPGPPrivateKey_throws secretName keyName (w : W) e :
  completion (getPGPPrivateKey secretName keyName w) = Throw e ->
  exists cause, e = Error ("Failed to retrieve PGP private key: " +:+ message cause).
Proof.
  unfold getPGPPrivateKey. rewrite rethrow_completion.
  destruct (completion _); [done|]. intros [= <-]. by eexists.
Qed.

Lemma decryptFile_events encryptedData key pass (w : W) :
  Forall (fun ev => is_decrypt_or_upload ev = true) (events (decryptFile encryptedData key pass w)).
Proof.
  unfold decryptFile. rewrite rethrow_events. unfold bind, call, ret.
  destruct (readPrivateKey key w) as [[e1|k1] w1]; simpl; [by repeat constructor|].
  destruct (truthy pass); simpl.
  - destruct (decryptKey k1 pass w1) as [[e2|k2] w2]; simpl; [by repeat constructor|].
    destruct (readMessage encryptedData w2) as [[e3|m] w3]; simpl; [by repeat constructor|].
    destruct (decrypt m k2 w3) as [[e4|plain] w4]; simpl; by repeat constructor.
  - destruct (readMessage encryptedData w1) as [[e3|m] w3]; simpl; [by repeat constructor|].
    destruct (decrypt m k1 w3) as [[e4|plain] w4]; simpl; by repeat constructor.
Qed.

Lemma decryptFile_throws encryptedData key pass (w : W) e :
  completion (decryptFile encryptedData key pass w) = Throw e ->
  exists cause, e = Error ("Failed to decrypt file: " +:+ message cause).
Proof.
  unfold decryptFile. rewrite rethrow_completion.
  destruct (completion _); [done|]. intros [= <-]. by eexists.
Qed.

End Helpers.

(** ** The loop over the listing *)

Section TheLoop.
Context {W : Type} `{!SecretsManager W, !S3 W, !OpenPGP W, !Json}.
Variables (bucketName : string) (pgpPrivateKey pgpPassphrase : jsval)
          (decryptedPrefix : string).

#[local] Abbreviation try_block :=
  (process_try bucketName pgpPrivateKey pgpPassphrase decryptedPrefix).
#[local] Abbreviation iteration :=
  (process_file bucketName pgpPrivateKey pgpPassphrase decryptedPrefix).
#[local] Abbreviation loop :=
  (process_files bucketName pgpPrivateKey pgpPassphrase decryptedPrefix).

Lemma process_file_directory file acc (w : W) :
  is_directory file = true ->
  iteration file acc w = {| completion := Normal acc; world := w; events := [] |}.
Proof.
  unfold is_directory, process_file, process_try. intros ->.
  reflexivity.
Qed.

(** The [try] block of an object, call by call. *)
Lemma process_try_run file acc (w : W) :
  is_directory file = false ->
  try_block file acc w
  = match getObject bucketName (Key file) w with
    | (inl cause, w1) =>
        {| completion :=
             Throw (Error ("Failed to download file " +:+ Key file +:+ ": " +:+ message cause));
           world := w1; events := [EvGetObject bucketName (Key file)] |}
    | (inr result, w1) =>
        let d := decryptFile (Body result) pgpPrivateKey pgpPassphrase w1 in
        {| completion :=
             match completion d with
             | Normal _ =>
                 Throw (Error "Failed to upload decrypted file: decryptedPrefix is not defined")
             | Throw e => Throw e
             end;
           world := world d;
           events := EvGetObject bucketName (Key file) :: events d |}
    end.
Proof.
  unfold is_directory, process_try. intros ->.
  pose proof (downloadFileFromS3_run bucketName (Key file) w) as Hd.
  destruct (getObject bucketName (Key file) w) as [[cause|result] w1].
  { rewrite (bind_throw _ _ _ _ (f_equal completion Hd)). by rewrite Hd. }
  rewrite (bind_normal _ _ _ _ (f_equal completion Hd)). rewrite Hd. simpl.
  set (d := decryptFile (Body result) pgpPrivateKey pgpPassphrase w1).
  destruct (completion d) as [plain|e] eqn:Hc.
  - rewrite (bind_normal _ _ _ _ Hc). fold d.
    rewrite (bind_throw _ _ _
               (Error "Failed to upload decrypted file: decryptedPrefix is not defined"))
      by now rewrite uploadDecryptedFile_throws.
    rewrite uploadDecryptedFile_throws. simpl. by rewrite app_nil_r.
  - by rewrite (bind_throw _ _ _ _ Hc).
Qed.

(** It downloads first, and whatever it throws has a non-empty message. *)
Lemma process_try_object file acc (w : W) :
  is_directory file = false ->
  let o := try_block file acc w in
  (exists tail, events o = EvGetObject bucketName (Key file) :: tail
                /\ Forall (fun ev => is_decrypt_or_upload ev = true) tail)
  /\ match completion o with
     | Normal acc' => exists r, acc' = acc ++ [r] /\ originalFile r = Key file
                                /\ has_error_field r = false
     | Throw e => truthy (VStr (message e)) = true
     end.
Proof.
  intros Hdir. cbv zeta. rewrite (process_try_run file acc w Hdir).
  destruct (getObject bucketName (Key file) w) as [[cause|result] w1]; simpl.
  { split; [by exists []|done]. }
  pose proof (decryptFile_events (Body result) pgpPrivateKey pgpPassphrase w1) as Hev.
  pose proof (decryptFile_throws (Body result) pgpPrivateKey pgpPassphrase w1) as Hthrow.
  split; [by eexists|].
  destruct (completion (decryptFile (Body result) pgpPrivateKey pgpPassphrase w1)) as [plain|e];
    [done|].
  by destruct (Hthrow e eq_refl) as [cause ->].
Qed.

(** One iteration on an object appends exactly one result, for that key. *)
Lemma process_file_object file acc (w : W) :
  is_directory file = false ->
  let o := iteration file acc w in
  (exists tail, events o = EvGetObject bucketName (Key file) :: tail
                /\ Forall (fun ev => is_decrypt_or_upload ev = true) tail)
  /\ exists r, completion o = Normal (acc ++ [r])
               /\ originalFile r = Key file
               /\ truthy (error r) = has_error_field r.
Proof.
  intros Hdir. destruct (process_try_object file acc w Hdir) as [Hev Hres].
  cbv zeta in *. unfold process_file, try_catch. cbv zeta.
  destruct (completion (try_block file acc w)) as [acc'|e] eqn:Hc.
  - split; [done|]. destruct Hres as (r & -> & Hkey & Hfield).
    exists r. split_and!; try done. rewrite Hfield. by destruct r.
  - simpl. rewrite app_nil_r. split; [done|].
    exists (Failed (Key file) (message e) "failed"). by split_and!.
Qed.

Lemma process_files_cons file rest acc acc' (w : W) :
  completion (iteration file acc w) = Normal acc' ->
  loop (file :: rest) acc w
  = {| completion := completion (loop rest acc' (world (iteration file acc w)));
       world := world (loop rest acc' (world (iteration file acc w)));
       events := events (iteration file acc w)
                 ++ events (loop rest acc' (world (iteration file acc w))) |}.
Proof. intros Hc. simpl. by apply bind_normal. Qed.

(** The loop never throws; it appends one result per object, in listing
    order, downloads each object once and nothing else, and makes no
    call besides downloads, decryptions and uploads. *)
Lemma process_files_spec files acc (w : W) :
  let o := loop files acc w in
  exists rs, completion o = Normal (acc ++ rs)
             /\ map originalFile rs = map Key (objects files)
             /\ Forall (fun r => truthy (error r) = has_error_field r) rs
             /\ downloads (events o) = map (fun file => (bucketName, Key file)) (objects files)
             /\ Forall (fun ev => is_object_work ev = true) (events o).
Proof.
  cbv zeta. revert acc w. induction files as [|file rest IH]; intros acc w.
  { exists []. simpl. rewrite app_nil_r. by split_and!. }
  destruct (is_directory file) eqn:Hdir.
  - pose proof (process_file_directory file acc w Hdir) as Hrun.
    rewrite (process_files_cons file rest acc acc w) by now rewrite Hrun.
    rewrite Hrun. simpl. destruct (IH acc w) as (rs & ? & ? & ? & ? & ?).
    exists rs. unfold objects in *. simpl. rewrite Hdir. simpl. by split_and!.
  - destruct (process_file_object file acc w Hdir) as [(tail & Hev & Htail) (r & Hc & Hkey & Herr)].
    cbv zeta in *. rewrite (process_files_cons file rest acc (acc ++ [r]) w Hc).
    destruct (IH (acc ++ [r]) (world (iteration file acc w))) as (rs & Hrs & Hkeys & Herrs & Hdl & Hwork).
    simpl. exists (r :: rs). rewrite Hrs, Hev. unfold objects in *. simpl.
    rewrite Hdir. simpl. split_and!.
    + by rewrite <- app_assoc.
    + by rewrite Hkey, Hkeys.
    + by constructor.
    + f_equal. unfold downloads in *. rewrite omap_app, Hdl.
      assert (omap download_of tail = []) as ->; [|done].
      clear -Htail. induction Htail as [|ev tail Hevt _ IHt]; [done|].
      destruct ev; try discriminate; exact IHt.
    + constructor; [done|]. apply Forall_app. split; [|done].
      eapply Forall_impl; [exact Htail|]. intros ev. by destruct ev.
Qed.

Lemma process_files_app pre post acc acc1 (w : W) :
  completion (loop pre acc w) = Normal acc1 ->
  loop (pre ++ post) acc w
  = {| completion := completion (loop post acc1 (world (loop pre acc w)));
       world := world (loop post acc1 (world (loop pre acc w)));
       events := events (loop pre acc w)
                 ++ events (loop post acc1 (world (loop pre acc w))) |}.
Proof.
  revert acc w. induction pre as [|file pre IH]; intros acc w Hpre.
  { simpl in *. injection Hpre as <-. by destruct (loop post acc w). }
  assert (exists acc', completion (iteration file acc w) = Normal acc') as [acc' Hfile].
  { destruct (is_directory file) eqn:Hdir.
    - rewrite (process_file_directory file acc w Hdir). by eexists.
    - destruct (process_file_object file acc w Hdir) as [_ (r & Hc & _)]. by eexists. }
  rewrite <- app_comm_cons.
  rewrite (process_files_cons file (pre ++ post) acc acc' w Hfile).
  rewrite (process_files_cons file pre acc acc' w Hfile) in Hpre |- *.
  simpl in *. rewrite (IH acc' _ Hpre). simpl. by rewrite app_assoc.
Qed.

(** C2. Let the [try] block of a listed object throw [e] (in the download,
    the decryption, the computation of the destination key or the upload),
    the descriptors before it having left the results [acc1].  Then the loop
    records Failed with the object's own key and [e]'s message, and goes on
    with the rest of the listing from the world the failure left: every
    later object is downloaded and gets its own result. *)
Theorem failure_recorded_and_isolated pre file post acc acc1 e (w : W) :
  let o_pre := loop pre acc w in
  let o_try := try_block file acc1 (world o_pre) in
  let failure := Failed (Key file) (message e) "failed" in
  let o_post := loop post (acc1 ++ [failure]) (world o_try) in
  completion o_pre = Normal acc1 ->
  completion o_try = Throw e ->
  loop (pre ++ file :: post) acc w
  = {| completion := completion o_post; world := world o_post;
       events := events o_pre ++ events o_try ++ events o_post |}
  /\ exists later,
       completion o_post = Normal (acc1 ++ [failure] ++ later)
       /\ map originalFile later = map Key (objects post)
       /\ downloads (events o_post) = map (fun f => (bucketName, Key f)) (objects post).
Proof.
  intros o_pre o_try failure o_post Hpre Htry. split.
  - rewrite (process_files_app pre (file :: post) acc acc1 w Hpre). fold o_pre.
    assert (Hfile : iteration file acc1 (world o_pre)
                    = {| completion := Normal (acc1 ++ [failure]); world := world o_try;
                         events := events o_try |}).
    { unfold process_file.
      rewrite (try_catch_throw _ _ _ e) by exact Htry. simpl.
      fold o_try. by rewrite app_nil_r. }
    rewrite (process_files_cons file post acc1 (acc1 ++ [failure]) (world o_pre))
      by now rewrite Hfile.
    rewrite Hfile. simpl. by fold o_post.
  - destruct (process_files_spec post (acc1 ++ [failure]) (world o_try))
      as (later & Hc & Hkeys & _ & Hdl & _).
    exists later. fold o_post in Hc, Hdl. rewrite Hc. split_and!; try done.
    by rewrite <- app_assoc.
Qed.

End TheLoop.

(** ** The handler *)

Section Handler.
Context {W : Type} `{!SecretsManager W, !S3 W, !OpenPGP W, !Json} {E : Type} `{!TriggerEvent E}.

(** Line 177 decides whether the [try] statement is entered: after an
    event that serialises the invocation is the run of that statement,
    after any other it rejects at once. *)
Lemma handler_serialised (event : E) text env (w : W) :
  JSON_stringify event = inr text ->
  handler event env w = handler_try_catch env w.
Proof.
  intros Hser. unfold handler, bind, lift. rewrite Hser. cbn [ret completion world events].
  by destruct (handler_try_catch env w).
Qed.

Lemma handler_unserialisable (event : E) cause env (w : W) :
  JSON_stringify event = inl cause ->
  handler event env w = {| completion := Throw cause; world := w; events := [] |}.
Proof. intros Hser. unfold handler, bind, lift. by rewrite Hser. Qed.

Lemma handler_keys_override cfg (w : W) :
  truthy (env_value (Config.privateKey cfg)) = true ->
  handler_keys cfg w
  = {| completion := Normal (env_value (Config.privateKey cfg),
                             env_value (Config.passphrase cfg));
       world := w; events := [] |}.
Proof. unfold handler_keys. by intros ->. Qed.

Lemma handler_keys_fetch cfg (w : W) :
  truthy (env_value (Config.privateKey cfg)) = false ->
  events (handler_keys cfg w) = [EvGetSecretValue (Config.secretName cfg)]
  /\ world (handler_keys cfg w)
     = world (getPGPPrivateKey (Config.secretName cfg) (Config.keyName cfg) w)
  /\ completion (handler_keys cfg w)
     = match completion (getPGPPrivateKey (Config.secretName cfg) (Config.keyName cfg) w) with
       | Normal secretData =>
           Normal (SecretData.privateKey secretData, SecretData.passphrase secretData)
       | Throw e => Throw e
       end.
Proof.
  unfold handler_keys. intros ->.
  pose proof (getPGPPrivateKey_events (Config.secretName cfg) (Config.keyName cfg) w) as Hev.
  unfold bind, ret.
  destruct (getPGPPrivateKey (Config.secretName cfg) (Config.keyName cfg) w)
    as [[secretData|e] w' evs]; simpl in *; subst evs; by split_and!.
Qed.

Lemma handler_keys_events cfg (w : W) :
  Forall (fun ev => is_fetch ev = true) (events (handler_keys cfg w)).
Proof.
  destruct (truthy (env_value (Config.privateKey cfg))) eqn:Hk.
  - rewrite handler_keys_override by done. constructor.
  - destruct (handler_keys_fetch cfg w Hk) as [-> _]. by repeat constructor.
Qed.

(** The calls made once the keys are known: one listing, then only
    downloads, decryptions and uploads. *)
Lemma handler_process_events cfg keys (w : W) :
  exists work,
    events (handler_process cfg keys w)
    = EvListObjectsV2 (Config.bucketName cfg) (Config.prefix cfg) :: work
    /\ Forall (fun ev => is_object_work ev = true) work.
Proof.
  unfold handler_process. destruct keys as [k p].
  pose proof (listEncryptedFiles_events (Config.bucketName cfg) (Config.prefix cfg) w) as Hev.
  unfold bind at 1.
  destruct (listEncryptedFiles (Config.bucketName cfg) (Config.prefix cfg) w)
    as [[files|e] w' evs]; simpl in *; subst evs; [|by exists []].
  destruct files as [|file rest]; simpl; [by exists []|].
  eexists. split; [reflexivity|].
  set (files := file :: rest).
  destruct (process_files_spec (Config.bucketName cfg) k p (Config.decryptedPrefix cfg)
              files [] w') as (rs & Hc & _ & _ & _ & Hwork).
  change (bind (process_file _ _ _ _ file []) _) with
    (process_files (Config.bucketName cfg) k p (Config.decryptedPrefix cfg) files []).
  unfold bind. rewrite Hc. simpl. by rewrite app_nil_r.
Qed.

(** The handler on a run whose key resolution and listing succeed. *)
Lemma handler_listed env keys files (w : W) :
  let cfg := Config.read env in
  let o1 := handler_keys cfg w in
  let o2 := listEncryptedFiles (Config.bucketName cfg) (Config.prefix cfg) (world o1) in
  let o3 := process_files (Config.bucketName cfg) keys.1 keys.2 (Config.decryptedPrefix cfg)
                          files [] (world o2) in
  completion o1 = Normal keys ->
  completion o2 = Normal files ->
  handler_try_catch env w
  = match files with
    | [] =>
        {| completion := Normal {| statusCode := 200;
                                   body := NoFilesBody "No files found to decrypt" [] |};
           world := world o2; events := events o1 ++ events o2 |}
    | _ :: _ =>
        {| completion :=
             match completion o3 with
             | Normal results =>
                 Normal {| statusCode := 200;
                           body := SummaryBody (summary_message files results) results |}
             | Throw error =>
                 Normal {| statusCode := 500;
                           body := ErrorBody "Internal server error" (message error) |}
             end;
           world := world o3; events := events o1 ++ events o2 ++ events o3 |}
    end.
Proof.
  intros cfg o1 o2 o3 H1 H2. unfold handler_try_catch, handler_try. fold cfg.
  unfold try_catch. cbv zeta. rewrite (bind_normal _ _ _ _ H1). fold o1.
  unfold handler_process. destruct keys as [k p]. rewrite (bind_normal _ _ _ _ H2). fold o2.
  subst o3. cbn [fst snd]. unfold bind, ret. cbv beta zeta.
  destruct files as [|file rest]; cbn [length Nat.eqb completion world events].
  { by rewrite !app_nil_r. }
  destruct (process_files (Config.bucketName cfg) k p (Config.decryptedPrefix cfg)
              (file :: rest) [] (world o2)) as [[results|e] w3 evs3].
  all: cbn [completion world events]; by rewrite ?app_nil_r.
Qed.

(** C4. When the event serialises, key resolution succeeds and the listing
    returns the empty sequence, the handler answers 200 with the message
    "No files found to decrypt" and an empty [decryptedFiles], and the
    invocation makes no download, decryption or upload call. *)
Theorem empty_listing_is_success (event : E) text env keys (w : W)
    (Hser : JSON_stringify event = inr text) :
  let cfg := Config.read env in
  let o1 := handler_keys cfg w in
  let o2 := listEncryptedFiles (Config.bucketName cfg) (Config.prefix cfg) (world o1) in
  completion o1 = Normal keys ->
  completion o2 = Normal [] ->
  handler event env w
  = {| completion := Normal {| statusCode := 200;
                               body := NoFilesBody "No files found to decrypt" [] |};
       world := world o2; events := events o1 ++ events o2 |}
  /\ Forall (fun ev => is_object_work ev = false) (events (handler event env w)).
Proof.
  intros cfg o1 o2 H1 H2. rewrite !(handler_serialised event text env w Hser).
  rewrite (handler_listed env keys [] w H1 H2). fold cfg o1 o2.
  split; [done|]. simpl. apply Forall_app. split.
  - eapply Forall_impl; [apply handler_keys_events|]. intros ev. by destruct ev.
  - unfold o2. rewrite listEncryptedFiles_events. by repeat constructor.
Qed.

(** C3. When the event serialises, key resolution succeeds and the listing
    is not empty, the handler answers 200 with a result sequence that
    holds exactly one result per descriptor whose key does not end with
    '/', in listing order and under that descriptor's key; descriptors
    whose key ends with '/' contribute nothing.  The downloads of the
    invocation are exactly those objects, once each, so no descriptor is
    processed twice and the number of results is the number of
    non-directory descriptors. *)
Theorem one_result_per_object (event : E) text env keys files (w : W)
    (Hser : JSON_stringify event = inr text) :
  let cfg := Config.read env in
  let o1 := handler_keys cfg w in
  let o2 := listEncryptedFiles (Config.bucketName cfg) (Config.prefix cfg) (world o1) in
  completion o1 = Normal keys ->
  completion o2 = Normal files ->
  files <> [] ->
  exists results,
    completion (handler event env w)
    = Normal {| statusCode := 200;
                body := SummaryBody (summary_message files results) results |}
    /\ map originalFile results = map Key (objects files)
    /\ length results = length (objects files)
    /\ downloads (events (handler event env w))
       = map (fun file => (Config.bucketName cfg, Key file)) (objects files).
Proof.
  intros cfg o1 o2 H1 H2 Hne. rewrite !(handler_serialised event text env w Hser).
  rewrite (handler_listed env keys files w H1 H2).
  fold cfg o1 o2. destruct files as [|file rest]; [done|]. set (files := file :: rest).
  destruct (process_files_spec (Config.bucketName cfg) keys.1 keys.2
              (Config.decryptedPrefix cfg) files [] (world o2))
    as (results & Hc & Hkeys & _ & Hdl & _).
  cbv zeta. set (o3 := process_files _ _ _ _ files [] (world o2)) in *. clearbody o3.
  exists results. cbn [completion world events]. rewrite Hc. split_and!; try done.
  - by rewrite <- (length_map originalFile), Hkeys, length_map.
  - unfold downloads in *. rewrite !omap_app, Hdl.
    assert (omap download_of (events o1) = []) as ->.
    { pose proof (handler_keys_events cfg w) as Hf. fold o1 in Hf.
      induction Hf as [|ev evs Hev _ IH]; [done|]. destruct ev; try discriminate; exact IH. }
    unfold o2. by rewrite listEncryptedFiles_events.
Qed.

Lemma filter_partition {A} (p : A -> bool) (l : list A) :
  length (List.filter (fun x => negb (p x)) l) + length (List.filter p l) = length l.
Proof.
  induction l as [|x l IH]; [done|]. simpl. destruct (p x); simpl; lia.
Qed.

Lemma filter_agree {A} (p q : A -> bool) (l : list A) :
  Forall (fun x => p x = q x) l -> List.filter p l = List.filter q l.
Proof.
  induction 1 as [|x l Hx _ IH]; [done|]. simpl. by rewrite Hx, IH.
Qed.

Lemma error_truthy (r : ProcessingResult) :
  error_not_empty r <-> truthy (error r) = has_error_field r.
Proof.
  destruct r as [k dk size lm|k msg status]; cbn [error_not_empty error has_error_field truthy VStr].
  - done.
  - destruct (String.eqb_spec msg ""); cbn [negb]; split; congruence.
Qed.

Lemma errors_truthy (results : list ProcessingResult) :
  Forall error_not_empty results <->
  Forall (fun r => truthy (error r) = has_error_field r) results.
Proof. split; intros Hall; (eapply Forall_impl; [exact Hall|]); intros r; apply error_truthy. Qed.

(** C10. How the two counts of the summary count.  In any result sequence
    whose [error] fields are not empty, [failureCount] is the number of
    results that carry an [error] field and [successCount] the number of
    those that do not, each result being counted once, in one of the two,
    so that the counts add up to the length of the sequence.  In the
    summary returned after a non-empty listing no [error] field is empty,
    the message holds these two counts of the returned results, and the
    total it reports is the number of listed descriptors: the results
    plus the directory markers. *)
Theorem summary_counts (event : E) text env keys files (w : W)
    (Hser : JSON_stringify event = inr text) :
  let cfg := Config.read env in
  let o1 := handler_keys cfg w in
  let o2 := listEncryptedFiles (Config.bucketName cfg) (Config.prefix cfg) (world o1) in
  (forall results : list ProcessingResult,
     Forall error_not_empty results ->
     failureCount results = length (List.filter has_error_field results)
     /\ successCount results = length (List.filter (fun r => negb (has_error_field r)) results)
     /\ successCount results + failureCount results = length results)
  /\ (forall (r : ProcessingResult) (results : list ProcessingResult),
        error_not_empty r ->
        successCount (r :: results)
        = ((if has_error_field r then 0 else 1) + successCount results)%nat
        /\ failureCount (r :: results)
           = ((if has_error_field r then 1 else 0) + failureCount results)%nat)
  /\ (completion o1 = Normal keys ->
      completion o2 = Normal files ->
      files <> [] ->
      exists results,
        completion (handler event env w)
        = Normal {| statusCode := 200;
                    body := SummaryBody
                              ("Processed " +:+ JsString.of_nat (length files)
                                 +:+ " files. Success: "
                                 +:+ JsString.of_nat (successCount results)
                                 +:+ ", Failures: " +:+ JsString.of_nat (failureCount results))
                              results |}
        /\ Forall error_not_empty results
        /\ Forall (fun r => truthy (error r) = has_error_field r) results
        /\ failureCount results = length (List.filter has_error_field results)
        /\ successCount results
           = length (List.filter (fun r => negb (has_error_field r)) results)
        /\ successCount results + failureCount results = length results
        /\ length results + length (List.filter is_directory files) = length files).
Proof.
  intros cfg o1 o2.
  assert (Hgen : forall results : list ProcessingResult,
             Forall (fun r => truthy (error r) = has_error_field r) results ->
             failureCount results = length (List.filter has_error_field results)
             /\ successCount results
                = length (List.filter (fun r => negb (has_error_field r)) results)
             /\ successCount results + failureCount results = length results).
  { intros results Herr. split_and!.
    - unfold failureCount. by rewrite (filter_agree _ has_error_field _ Herr).
    - unfold successCount. f_equal. apply filter_agree.
      eapply Forall_impl; [exact Herr|]. by intros r ->.
    - apply filter_partition. }
  split_and!.
  - intros results Herr. apply Hgen. by apply errors_truthy.
  - intros r results Hr. apply error_truthy in Hr.
    unfold successCount, failureCount. cbn [List.filter]. rewrite Hr.
    by destruct (has_error_field r).
  - intros H1 H2 Hne. rewrite (handler_serialised event text env w Hser).
    rewrite (handler_listed env keys files w H1 H2).
    fold cfg o1 o2. destruct files as [|file rest]; [done|]. set (files := file :: rest).
    destruct (process_files_spec (Config.bucketName cfg) keys.1 keys.2
                (Config.decryptedPrefix cfg) files [] (world o2))
      as (results & Hc & Hkeys & Herr & _ & _).
    cbv zeta. set (o3 := process_files _ _ _ _ files [] (world o2)) in *. clearbody o3.
    exists results. cbn [completion world events]. rewrite Hc.
    assert (Hlen : length results = length (objects files)).
    { by rewrite <- (length_map originalFile), Hkeys, length_map. }
    destruct (Hgen results Herr) as (Hf & Hs & Hsum).
    split_and!; try done.
    + by apply errors_truthy.
    + rewrite Hlen. unfold objects. apply (filter_partition is_directory).
Qed.

End Handler.

(** ** Key resolution and configuration *)

Section KeysAndConfig.
Context {W : Type} `{!SecretsManager W, !S3 W, !OpenPGP W, !Json} {E : Type} `{!TriggerEvent E}.

Lemma handler_events env (w : W) :
  let cfg := Config.read env in
  let o1 := handler_keys cfg w in
  events (handler_try_catch env w)
  = events o1 ++ match completion o1 with
                 | Normal keys => events (handler_process cfg keys (world o1))
                 | Throw _ => []
                 end.
Proof.
  intros cfg o1. unfold handler_try_catch, handler_try, try_catch, bind, ret. fold cfg o1.
  cbv beta zeta. destruct (completion o1) as [keys|e]; cbn [completion world events].
  - destruct (completion (handler_process cfg keys (world o1)));
      cbn [completion world events]; by rewrite ?app_nil_r.
  - by rewrite !app_nil_r.
Qed.

Lemma filter_fetch_all (evs : list Event) :
  Forall (fun ev => is_fetch ev = true) evs -> List.filter is_fetch evs = evs.
Proof. induction 1 as [|ev evs Hev _ IH]; [done|]. simpl. by rewrite Hev, IH. Qed.

Lemma filter_fetch_none (evs : list Event) :
  Forall (fun ev => is_fetch ev = false) evs -> List.filter is_fetch evs = [].
Proof. induction 1 as [|ev evs Hev _ IH]; [done|]. simpl. by rewrite Hev. Qed.

Lemma handler_process_no_fetch cfg keys (w : W) :
  List.filter is_fetch (events (handler_process cfg keys w)) = [].
Proof.
  destruct (handler_process_events cfg keys w) as (work & -> & Hwork).
  apply filter_fetch_none. constructor; [done|].
  eapply Forall_impl; [exact Hwork|]. intros ev. by destruct ev.
Qed.

(** C6. In an invocation whose event serialises: when
    [process.env.privateKey] is truthy (set and not empty), key resolution
    returns it with [process.env.passphrase] without any call, the rest of
    the invocation runs with that pair, and the whole invocation makes no
    Secrets Manager call.  Otherwise key resolution makes one
    getSecretValue call, for the configured secret name, and it is the
    only Secrets Manager call of the invocation. *)
Theorem key_source (event : E) text env (w : W)
    (Hser : JSON_stringify event = inr text) :
  let cfg := Config.read env in
  let fetches := List.filter is_fetch (events (handler event env w)) in
  if truthy (env_value (env !! "privateKey")) then
    handler_keys cfg w
    = {| completion := Normal (env_value (env !! "privateKey"),
                               env_value (env !! "passphrase"));
         world := w; events := [] |}
    /\ handler event env w
       = try_catch (handler_process cfg (env_value (env !! "privateKey"),
                                         env_value (env !! "passphrase")))
           (fun error =>
              ret {| statusCode := 500;
                     body := ErrorBody "Internal server error" (message error) |}) w
    /\ fetches = []
  else
    events (handler_keys cfg w) = [EvGetSecretValue (Config.secretName cfg)]
    /\ fetches = [EvGetSecretValue (Config.secretName cfg)].
Proof.
  intros cfg fetches. subst fetches. rewrite !(handler_serialised event text env w Hser).
  rewrite handler_events. fold cfg.
  destruct (truthy (env_value (env !! "privateKey"))) eqn:Hk.
  - pose proof (handler_keys_override cfg w Hk) as Hrun. split_and!.
    + exact Hrun.
    + unfold handler_try_catch, handler_try, try_catch, bind. fold cfg. rewrite Hrun.
      cbn [completion world events]. cbv beta zeta.
      by destruct (handler_process cfg _ w) as [[response|e] w1 evs].
    + rewrite Hrun. cbn [completion world events]. apply handler_process_no_fetch.
  - destruct (handler_keys_fetch cfg w Hk) as (Hev & _ & _). split; [exact Hev|].
    rewrite List.filter_app, Hev.
    destruct (completion (handler_keys cfg w)); [|done].
    by rewrite handler_process_no_fetch.
Qed.

Lemma env_or_default_absent (a b : option string) (d : string) :
  truthy (env_value a) = false ->
  truthy (env_value b) = false ->
  env_or_default (env_or a b) d = d.
Proof.
  intros Ha Hb. unfold env_or. rewrite Ha. unfold env_or_default.
  destruct b as [s|]; [|done]. change (truthy (VStr s)) with (truthy (env_value (Some s))).
  by rewrite Hb.
Qed.

Lemma read_default_bucket env :
  truthy (env_value (env !! "bucketName")) = false ->
  truthy (env_value (env !! "S3_BUCKET_NAME")) = false ->
  Config.read (<["bucketName" := "sftp-file-sync-vivien"]> env) = Config.read env.
Proof.
  intros Hb Hs. unfold Config.read.
  rewrite lookup_insert_eq.
  rewrite !(lookup_insert_ne env "bucketName") by done.
  by rewrite (env_or_default_absent _ _ _ Hb Hs).
Qed.

(** C8 (amended). When the bucket name is absent (unset or empty) from both
    [bucketName] and [S3_BUCKET_NAME], no error is raised for it: the
    handler takes the bucket "sftp-file-sync-vivien" and the invocation
    runs exactly as if that name had been configured. *)
Theorem absent_bucket_defaults (event : E) env (w : W) :
  truthy (env_value (env !! "bucketName")) = false ->
  truthy (env_value (env !! "S3_BUCKET_NAME")) = false ->
  Config.bucketName (Config.read env) = "sftp-file-sync-vivien"
  /\ handler event env w = handler event (<["bucketName" := "sftp-file-sync-vivien"]> env) w.
Proof.
  intros Hb Hs. split.
  - rewrite <- (read_default_bucket env Hb Hs). unfold Config.read.
    cbn [Config.bucketName]. by rewrite lookup_insert_eq.
  - unfold handler, handler_try_catch, handler_try.
    by rewrite (read_default_bucket env Hb Hs).
Qed.

(** What does hold of a payload object without the configured field: when
    the field name is not a member of Object.prototype either, the
    invocation stops at key resolution, with one Secrets Manager call and
    no listing. *)
Lemma missing_field_aborts (event : E) text env s members (w w' : W)
    (Hser : JSON_stringify event = inr text) :
  let cfg := Config.read env in
  let keyName := default "pgp-key" (Config.keyName cfg) in
  truthy (env_value (env !! "privateKey")) = false ->
  getSecretValue (Config.secretName cfg) w = (inr {| SecretString := Some s |}, w') ->
  truthy (VStr s) = true ->
  JSON_parse s = inr (JObject members) ->
  lookup_member keyName members = None ->
  has_name keyName Object_prototype = false ->
  handler event env w
  = {| completion :=
         Normal {| statusCode := 500;
                   body := ErrorBody "Internal server error"
                             ("Failed to retrieve PGP private key: Secret does not contain "
                                +:+ keyName +:+ " field") |};
       world := w'; events := [EvGetSecretValue (Config.secretName cfg)] |}.
Proof.
  intros cfg keyName Hk Hget Hs Hparse Hown Hproto.
  assert (Hrun : getPGPPrivateKey (Config.secretName cfg) (Config.keyName cfg) w
                 = {| completion :=
                        Throw (Error ("Failed to retrieve PGP private key: Secret does not contain "
                                        +:+ keyName +:+ " field"));
                      world := w'; events := [EvGetSecretValue (Config.secretName cfg)] |}).
  { unfold getPGPPrivateKey, try_catch, bind, call, lift, ret, throw. cbv beta zeta.
    rewrite Hget. cbn [completion world events SecretString]. rewrite Hs, Hparse.
    cbn [completion world events]. fold keyName.
    unfold get_property, own_property. rewrite Hown. cbn [fmap option_fmap option_map].
    cbn [prototype_chain inherited_property]. rewrite Hproto.
    by cbn [completion world events truthy negb message app]. }
  rewrite (handler_serialised event text env w Hser).
  unfold handler_try_catch, handler_try, try_catch, bind. fold cfg. cbv beta zeta.
  change (env !! "privateKey") with (Config.privateKey cfg) in Hk.
  unfold handler_keys. rewrite Hk. unfold bind. cbv beta zeta. rewrite Hrun.
  by cbn [completion world events ret app].
Qed.

End KeysAndConfig.

(** ** The lister *)

Section Lister.
Context {W : Type} `{!SecretsManager W, !S3 W, !OpenPGP W, !Json}.

(** C7. [index.js] lists through the aws-sdk v2 client, whose response
    parser fills a list the service left out with the empty list, so a
    listing response that is delivered carries its [Contents]; this is
    the hypothesis.  Then, for every bucket and prefix: when the listing
    call succeeds the lister returns the descriptors it delivered, after
    that one call, and so the empty sequence, not an error, when nothing
    matches; the lister throws only when the listing call itself fails,
    and then with the message "Failed to list files from S3: " followed
    by the cause's. *)
Theorem lister_returns_the_listing bucketName prefix (w : W)
    (Hclient : forall b p (w0 w1 : W) result,
        listObjectsV2 b p w0 = (inr result, w1) ->
        exists contents, Contents result = Some contents) :
  (forall result w',
     listObjectsV2 bucketName prefix w = (inr result, w') ->
     exists contents,
       Contents result = Some contents
       /\ listEncryptedFiles bucketName prefix w
          = {| completion := Normal contents; world := w';
               events := [EvListObjectsV2 bucketName prefix] |})
  /\ (forall w',
        listObjectsV2 bucketName prefix w = (inr {| Contents := Some [] |}, w') ->
        listEncryptedFiles bucketName prefix w
        = {| completion := Normal []; world := w';
             events := [EvListObjectsV2 bucketName prefix] |})
  /\ (forall e,
        completion (listEncryptedFiles bucketName prefix w) = Throw e ->
        exists cause w',
          listObjectsV2 bucketName prefix w = (inl cause, w')
          /\ e = Error ("Failed to list files from S3: " +:+ message cause))
  /\ (forall cause w',
        listObjectsV2 bucketName prefix w = (inl cause, w') ->
        listEncryptedFiles bucketName prefix w
        = {| completion := Throw (Error ("Failed to list files from S3: " +:+ message cause));
             world := w'; events := [EvListObjectsV2 bucketName prefix] |}).
Proof.
  split_and!.
  - intros result w' Hcall. destruct (Hclient _ _ _ _ _ Hcall) as [contents Hcontents].
    exists contents. split; [exact Hcontents|].
    rewrite listEncryptedFiles_run, Hcall. destruct result as [c]. cbn in Hcontents.
    by rewrite Hcontents.
  - intros w' Hcall. by rewrite listEncryptedFiles_run, Hcall.
  - intros e. rewrite listEncryptedFiles_run.
    destruct (listObjectsV2 bucketName prefix w) as [[cause|result] w'] eqn:Hcall.
    + intros [= <-]. by exists cause, w'.
    + destruct (Hclient _ _ _ _ _ Hcall) as [contents Hcontents].
      destruct result as [c]. cbn in Hcontents. by rewrite Hcontents.
  - intros cause w' Hcall. by rewrite listEncryptedFiles_run, Hcall.
Qed.

End Lister.

(** * Concrete runs *)

(** ** A bucket with three objects and a directory marker *)

Section BucketRun.
#[local] Existing Instances Scripted.bucket_secretsManager Scripted.bucket_s3
  Scripted.bucket_openpgp Scripted.bucket_json Scripted.trigger.

(** C1. The destination key is never written.  For "in/a.gpg" and
    "in/c.txt" the download and the decryption succeed, and the
    destination prefix is configured ("out/"); [uploadDecryptedFile] then
    throws at its read of [decryptedPrefix], a name its parameter list
    does not bind, so both objects end as failures and the invocation
    makes no upload call: no object's processing ever succeeds. *)
Theorem destination_key_never_written :
  let o := handler Scripted.EmptyObject Scripted.env 0%nat in
  completion (decryptFile [Byte.x01; Byte.x68; Byte.x69]
                          (VStr "ARMORED KEY") (VStr "hunter2") 2%nat)
  = Normal [Byte.x68; Byte.x69]
  /\ "out/" +:+ decryptedFileName "a.gpg" = "out/a"
  /\ completion o
     = Normal {| statusCode := 200;
                 body := SummaryBody "Processed 4 files. Success: 0, Failures: 3"
                   [ Failed "in/a.gpg"
                       "Failed to upload decrypted file: decryptedPrefix is not defined"
                       "failed";
                     Failed "in/b.gpg"
                       "Failed to decrypt file: Session key decryption failed."
                       "failed";
                     Failed "in/c.txt"
                       "Failed to upload decrypted file: decryptedPrefix is not defined"
                       "failed" ] |}
  /\ List.filter is_upload (events o) = [].
Proof. vm_compute. by split_and!. Qed.

(** C5. With the key field named "toString" and the secret payload [{}],
    the field is absent from the payload, yet the check of
    [getPGPPrivateKey] passes on the inherited Object.prototype.toString:
    key resolution returns normally, the listing call is made and the
    objects are processed. *)
Theorem inherited_name_passes_field_check :
  let o := handler Scripted.EmptyObject Scripted.env_toString 0%nat in
  JSON_parse "{}" = inr (JObject [])
  /\ lookup_member "toString" [] = None
  /\ completion (handler_keys (Config.read Scripted.env_toString) 0%nat)
     = Normal (VBuiltin "Object.prototype.toString", VNull)
  /\ List.filter is_listing (events o) = [EvListObjectsV2 "b" (Some "in/")]
  /\ downloads (events o) = [("b", "in/a.gpg"); ("b", "in/b.gpg"); ("b", "in/c.txt")]
  /\ exists body, completion o = Normal {| statusCode := 200; body := body |}.
Proof. vm_compute. split_and!; try done. by eexists. Qed.

Lemma failure_recorded_and_isolated_witness :
  let k := VStr "ARMORED KEY" in
  let p := VStr "hunter2" in
  let pre := take 2 Scripted.files in
  let file := {| Key := "in/b.gpg"; Size := 20; LastModified := 1700000002 |} in
  let post := drop 3 Scripted.files in
  let acc1 := [Failed "in/a.gpg"
                 "Failed to upload decrypted file: decryptedPrefix is not defined" "failed"] in
  let e := Error "Failed to decrypt file: Session key decryption failed." in
  let o_pre := process_files "b" k p "out/" pre [] 1%nat in
  let o_try := process_try "b" k p "out/" file acc1 (world o_pre) in
  let failure := Failed "in/b.gpg" "Failed to decrypt file: Session key decryption failed."
                        "failed" in
  let o_post := process_files "b" k p "out/" post (acc1 ++ [failure]) (world o_try) in
  (completion o_pre = Normal acc1 /\ completion o_try = Throw e)
  /\ process_files "b" k p "out/" (pre ++ file :: post) [] 1%nat
     = {| completion := completion o_post; world := world o_post;
          events := events o_pre ++ events o_try ++ events o_post |}
  /\ exists later,
       completion o_post = Normal (acc1 ++ [failure] ++ later)
       /\ map originalFile later = map Key (objects post)
       /\ downloads (events o_post) = map (fun f => ("b", Key f)) (objects post).
Proof.
  intros k p pre file post acc1 e o_pre o_try failure o_post.
  assert (Hpre : completion o_pre = Normal acc1) by (vm_compute; reflexivity).
  assert (Htry : completion o_try = Throw e) by (vm_compute; reflexivity).
  split; [by split|].
  exact (failure_recorded_and_isolated "b" k p "out/" pre file post [] acc1 e 1%nat Hpre Htry).
Defined.

Lemma one_result_per_object_witness :
  let keys := (VStr "ARMORED KEY", VStr "hunter2") in
  let cfg := Config.read Scripted.env in
  let o1 := handler_keys cfg 0%nat in
  let o2 := listEncryptedFiles (Config.bucketName cfg) (Config.prefix cfg) (world o1) in
  (JSON_stringify Scripted.EmptyObject = inr "{}"
   /\ completion o1 = Normal keys /\ completion o2 = Normal Scripted.files
   /\ Scripted.files <> [])
  /\ exists results,
       completion (handler Scripted.EmptyObject Scripted.env 0%nat)
       = Normal {| statusCode := 200;
                   body := SummaryBody (summary_message Scripted.files results) results |}
       /\ map originalFile results = map Key (objects Scripted.files)
       /\ length results = length (objects Scripted.files)
       /\ downloads (events (handler Scripted.EmptyObject Scripted.env 0%nat))
          = map (fun file => (Config.bucketName cfg, Key file)) (objects Scripted.files).
Proof.
  intros keys cfg o1 o2.
  assert (Hser : JSON_stringify Scripted.EmptyObject = inr "{}") by reflexivity.
  assert (H1 : completion o1 = Normal keys) by (vm_compute; reflexivity).
  assert (H2 : completion o2 = Normal Scripted.files) by (vm_compute; reflexivity).
  assert (Hne : Scripted.files <> []) by discriminate.
  split; [by split_and!|].
  exact (one_result_per_object Scripted.EmptyObject "{}" Scripted.env keys Scripted.files
           0%nat Hser H1 H2 Hne).
Defined.

Lemma summary_counts_witness :
  let sample := [ Processed "in/a.gpg" "out/a" 10 1700000001;
                  Failed "in/b.gpg" "bad passphrase" "failed" ] in
  let keys := (VStr "ARMORED KEY", VStr "hunter2") in
  let cfg := Config.read Scripted.env in
  let o1 := handler_keys cfg 0%nat in
  let o2 := listEncryptedFiles (Config.bucketName cfg) (Config.prefix cfg) (world o1) in
  (JSON_stringify Scripted.EmptyObject = inr "{}"
   /\ Forall error_not_empty sample
   /\ completion o1 = Normal keys /\ completion o2 = Normal Scripted.files
   /\ Scripted.files <> [])
  /\ (failureCount sample = 1%nat /\ successCount sample = 1%nat
      /\ (successCount sample + failureCount sample = length sample)%nat)
  /\ exists results,
       completion (handler Scripted.EmptyObject Scripted.env 0%nat)
       = Normal {| statusCode := 200;
                   body := SummaryBody
                             ("Processed " +:+ JsString.of_nat (length Scripted.files)
                                +:+ " files. Success: "
                                +:+ JsString.of_nat (successCount results)
                                +:+ ", Failures: " +:+ JsString.of_nat (failureCount results))
                             results |}
       /\ Forall error_not_empty results
       /\ Forall (fun r => truthy (error r) = has_error_field r) results
       /\ failureCount results = length (List.filter has_error_field results)
       /\ successCount results
          = length (List.filter (fun r => negb (has_error_field r)) results)
       /\ successCount results + failureCount results = length results
       /\ length results + length (List.filter is_directory Scripted.files)
          = length Scripted.files.
Proof.
  intros sample keys cfg o1 o2.
  assert (Hser : JSON_stringify Scripted.EmptyObject = inr "{}") by reflexivity.
  assert (Hsample : Forall error_not_empty sample).
  { repeat constructor. discriminate. }
  assert (H1 : completion o1 = Normal keys) by (vm_compute; reflexivity).
  assert (H2 : completion o2 = Normal Scripted.files) by (vm_compute; reflexivity).
  assert (Hne : Scripted.files <> []) by discriminate.
  split; [by split_and!|].
  destruct (summary_counts Scripted.EmptyObject "{}" Scripted.env keys Scripted.files
              0%nat Hser) as (Hcounts & _ & Hrun).
  split.
  - exact (Hcounts sample Hsample).
  - exact (Hrun H1 H2 Hne).
Defined.

(** With an empty [error] field a result would be counted as a success,
    [!r.error] being true of the empty string; the messages the loop
    records all start with their "Failed to ..." prefix. *)
Example empty_error_counts_as_success :
  successCount [Failed "in/a.gpg" "" "failed"] = 1%nat
  /\ failureCount [Failed "in/a.gpg" "" "failed"] = 0%nat.
Proof. by split. Qed.

(** The total written in the message does exceed the number of results
    here: four descriptors listed, three results. *)
Example total_exceeds_results :
  exists results,
    completion (handler Scripted.EmptyObject Scripted.env 0%nat)
    = Normal {| statusCode := 200;
                body := SummaryBody "Processed 4 files. Success: 0, Failures: 3" results |}
    /\ length results = 3%nat.
Proof. eexists. vm_compute. by split. Qed.

End BucketRun.

(** ** An empty prefix, answered with an empty array *)

Section EmptyBucketRun.
#[local] Existing Instances Scripted.empty_secretsManager Scripted.empty_s3
  Scripted.empty_openpgp Scripted.empty_json Scripted.trigger.

Lemma empty_listing_is_success_witness :
  let keys := (VStr "ARMORED KEY", VStr "hunter2") in
  let cfg := Config.read Scripted.env in
  let o1 := handler_keys cfg 0%nat in
  let o2 := listEncryptedFiles (Config.bucketName cfg) (Config.prefix cfg) (world o1) in
  (JSON_stringify Scripted.EmptyObject = inr "{}"
   /\ completion o1 = Normal keys /\ completion o2 = Normal [])
  /\ handler Scripted.EmptyObject Scripted.env 0%nat
     = {| completion := Normal {| statusCode := 200;
                                  body := NoFilesBody "No files found to decrypt" [] |};
          world := world o2; events := events o1 ++ events o2 |}
  /\ Forall (fun ev => is_object_work ev = false)
            (events (handler Scripted.EmptyObject Scripted.env 0%nat)).
Proof.
  intros keys cfg o1 o2.
  assert (Hser : JSON_stringify Scripted.EmptyObject = inr "{}") by reflexivity.
  assert (H1 : completion o1 = Normal keys) by (vm_compute; reflexivity).
  assert (H2 : completion o2 = Normal []) by (vm_compute; reflexivity).
  split; [by split_and!|].
  exact (empty_listing_is_success Scripted.EmptyObject "{}" Scripted.env keys 0%nat
           Hser H1 H2).
Defined.

(** C8, as stated, fails: with no bucket name in the environment the
    invocation does not fail; it lists the bucket "sftp-file-sync-vivien"
    and answers 200. *)
Lemma absent_bucket_is_not_an_error :
  Scripted.env_without_bucket !! "bucketName" = None
  /\ Scripted.env_without_bucket !! "S3_BUCKET_NAME" = None
  /\ handler Scripted.EmptyObject Scripted.env_without_bucket 0%nat
     = {| completion := Normal {| statusCode := 200;
                                  body := NoFilesBody "No files found to decrypt" [] |};
          world := 1%nat;
          events := [EvListObjectsV2 "sftp-file-sync-vivien" (Some "in/")] |}.
Proof. vm_compute. by split_and!. Qed.

Lemma absent_bucket_defaults_witness :
  (truthy (env_value (Scripted.env_without_bucket !! "bucketName")) = false
   /\ truthy (env_value (Scripted.env_without_bucket !! "S3_BUCKET_NAME")) = false)
  /\ Config.bucketName (Config.read Scripted.env_without_bucket) = "sftp-file-sync-vivien"
  /\ handler Scripted.EmptyObject Scripted.env_without_bucket 0%nat
     = handler Scripted.EmptyObject
         (<["bucketName" := "sftp-file-sync-vivien"]> Scripted.env_without_bucket) 0%nat.
Proof.
  assert (Hb : truthy (env_value (Scripted.env_without_bucket !! "bucketName")) = false)
    by (vm_compute; reflexivity).
  assert (Hs : truthy (env_value (Scripted.env_without_bucket !! "S3_BUCKET_NAME")) = false)
    by (vm_compute; reflexivity).
  split; [by split|].
  exact (absent_bucket_defaults Scripted.EmptyObject Scripted.env_without_bucket 0%nat Hb Hs).
Defined.

Lemma key_source_witness :
  JSON_stringify Scripted.EmptyObject = inr "{}"
  /\ List.filter is_fetch (events (handler Scripted.EmptyObject Scripted.env 0%nat)) = []
  /\ List.filter is_fetch (events (handler Scripted.EmptyObject Scripted.env_toString 0%nat))
     = [EvGetSecretValue (Some "pgp-key")].
Proof.
  split_and!.
  - reflexivity.
  - exact (proj2 (proj2 (key_source Scripted.EmptyObject "{}" Scripted.env 0%nat eq_refl))).
  - exact (proj2 (key_source Scripted.EmptyObject "{}" Scripted.env_toString 0%nat eq_refl)).
Defined.

Lemma lister_returns_the_listing_witness :
  (forall b p (w0 w1 : nat) result,
      listObjectsV2 b p w0 = (inr result, w1) ->
      exists contents, Contents result = Some contents)
  /\ listObjectsV2 "b" (Some "in/") 0%nat = (inr {| Contents := Some [] |}, 1%nat)
  /\ listEncryptedFiles "b" (Some "in/") 0%nat
     = {| completion := Normal []; world := 1%nat;
          events := [EvListObjectsV2 "b" (Some "in/")] |}.
Proof.
  assert (Hclient : forall b p (w0 w1 : nat) result,
             listObjectsV2 b p w0 = (inr result, w1) ->
             exists contents, Contents result = Some contents).
  { intros b p w0 w1 result [= <- _]. by exists []. }
  split; [exact Hclient|]. split; [reflexivity|].
  exact (proj1 (proj2 (lister_returns_the_listing "b" (Some "in/") 0%nat Hclient))
           1%nat eq_refl).
Defined.

Lemma decryptFile_steps_witness :
  events (decryptFile [Byte.x01; Byte.x68] (VStr "ARMORED KEY") VNull 0%nat)
  = [EvReadPrivateKey (VStr "ARMORED KEY"); EvReadMessage [Byte.x01; Byte.x68]; EvDecrypt]
  /\ events (decryptFile [Byte.x01; Byte.x68] (VStr "ARMORED KEY") (VStr "hunter2") 0%nat)
     = [EvReadPrivateKey (VStr "ARMORED KEY"); EvDecryptKey (VStr "hunter2");
        EvReadMessage [Byte.x01; Byte.x68]; EvDecrypt].
Proof.
  split.
  - exact (proj1 (proj2 (proj2 (decryptFile_steps [Byte.x01; Byte.x68]
                                   (VStr "ARMORED KEY") VNull 0%nat)))
             [Byte.x68] eq_refl).
  - exact (proj1 (proj2 (proj2 (decryptFile_steps [Byte.x01; Byte.x68]
                                   (VStr "ARMORED KEY") (VStr "hunter2") 0%nat)))
             [Byte.x68] eq_refl).
Defined.

End EmptyBucketRun.

(** * Further properties of [index.js] *)

(** ** How an invocation ends *)

Section Outcomes.
Context {W : Type} `{!SecretsManager W, !S3 W, !OpenPGP W, !Json} {E : Type} `{!TriggerEvent E}.

Lemma listEncryptedFiles_throws bucketName prefix (w : W) e :
  completion (listEncryptedFiles bucketName prefix w) = Throw e ->
  exists cause, e = Error ("Failed to list files from S3: " +:+ message cause).
Proof.
  unfold listEncryptedFiles. rewrite rethrow_completion.
  destruct (completion _); [done|]. intros [= <-]. by eexists.
Qed.

Lemma handler_keys_throws cfg (w : W) e :
  completion (handler_keys cfg w) = Throw e ->
  exists cause, e = Error ("Failed to retrieve PGP private key: " +:+ message cause).
Proof.
  destruct (truthy (env_value (Config.privateKey cfg))) eqn:Hk.
  - by rewrite handler_keys_override.
  - destruct (handler_keys_fetch cfg w Hk) as (_ & _ & ->).
    destruct (completion (getPGPPrivateKey _ _ w)) as [sd|e'] eqn:Hc; [done|].
    intros [= <-]. exact (getPGPPrivateKey_throws _ _ w _ Hc).
Qed.

Lemma handler_keys_failed env e (w : W) :
  let o1 := handler_keys (Config.read env) w in
  completion o1 = Throw e ->
  handler_try_catch env w
  = {| completion := Normal {| statusCode := 500;
                               body := ErrorBody "Internal server error" (message e) |};
       world := world o1; events := events o1 |}.
Proof.
  intros o1 H1. unfold handler_try_catch, handler_try, try_catch. cbv zeta.
  rewrite (bind_throw _ _ _ _ H1). fold o1.
  cbn [completion world events ret]. by rewrite app_nil_r.
Qed.

Lemma handler_listing_failed env keys e (w : W) :
  let cfg := Config.read env in
  let o1 := handler_keys cfg w in
  let o2 := listEncryptedFiles (Config.bucketName cfg) (Config.prefix cfg) (world o1) in
  completion o1 = Normal keys ->
  completion o2 = Throw e ->
  handler_try_catch env w
  = {| completion := Normal {| statusCode := 500;
                               body := ErrorBody "Internal server error" (message e) |};
       world := world o2; events := events o1 ++ events o2 |}.
Proof.
  intros cfg o1 o2 H1 H2. unfold handler_try_catch, handler_try, try_catch. cbv zeta. fold cfg.
  rewrite (bind_normal _ _ _ _ H1). fold o1.
  unfold handler_process. destruct keys as [k p]. rewrite (bind_throw _ _ _ _ H2). fold o2.
  cbn [completion world events ret]. by rewrite app_nil_r.
Qed.

(** The [try] statement never throws: it ends in a response whose status
    is 200 or 500, and it is 200 exactly when key resolution and the
    listing both succeed. *)
Lemma handler_try_catch_responds env (w : W) :
  let cfg := Config.read env in
  let o1 := handler_keys cfg w in
  let o2 := listEncryptedFiles (Config.bucketName cfg) (Config.prefix cfg) (world o1) in
  exists response,
    completion (handler_try_catch env w) = Normal response
    /\ (statusCode response = 200%Z \/ statusCode response = 500%Z)
    /\ (statusCode response = 200%Z <->
        exists keys files, completion o1 = Normal keys /\ completion o2 = Normal files).
Proof.
  intros cfg o1 o2.
  destruct (completion o1) as [keys|e1] eqn:H1.
  2:{ rewrite (handler_keys_failed env e1 w H1). eexists. split; [done|].
      cbn [statusCode]. split; [by right|]. split; [done|]. by intros (?&?&?&_). }
  destruct (completion o2) as [files|e2] eqn:H2.
  2:{ rewrite (handler_listing_failed env keys e2 w H1 H2). eexists. split; [done|].
      cbn [statusCode]. split; [by right|]. split; [done|]. by intros (?&?&_&?). }
  rewrite (handler_listed env keys files w H1 H2). fold cfg o1 o2.
  destruct files as [|file rest].
  { eexists. split; [done|]. cbn [statusCode]. split; [by left|]. split; [|done].
    intros _. by exists keys, []. }
  destruct (process_files_spec (Config.bucketName cfg) keys.1 keys.2
              (Config.decryptedPrefix cfg) (file :: rest) [] (world o2))
    as (results & Hc & _).
  cbv zeta in Hc |- *. cbn [completion]. rewrite Hc. eexists. split; [done|].
  cbn [statusCode]. split; [by left|]. split; [|done]. intros _. by exists keys, (file :: rest).
Qed.

(** X1. An invocation whose event serialises never rejects: it resolves
    to a response whose status is 200 or 500, and it is 200 exactly when
    key resolution and the listing both succeed; what happens to the
    single objects never changes the status.  An invocation rejects only
    on an event that [JSON.stringify] throws on: then it rejects with that
    error, before the [try] statement, and has made no call. *)
Theorem handler_responds (event : E) text env (w : W)
    (Hser : JSON_stringify event = inr text) :
  let cfg := Config.read env in
  let o1 := handler_keys cfg w in
  let o2 := listEncryptedFiles (Config.bucketName cfg) (Config.prefix cfg) (world o1) in
  (exists response,
     completion (handler event env w) = Normal response
     /\ (statusCode response = 200%Z \/ statusCode response = 500%Z)
     /\ (statusCode response = 200%Z <->
         exists keys files, completion o1 = Normal keys /\ completion o2 = Normal files))
  /\ (forall (event' : E) e,
        completion (handler event' env w) = Throw e ->
        JSON_stringify event' = inl e
        /\ handler event' env w = {| completion := Throw e; world := w; events := [] |})
  /\ (forall (event' : E) cause,
        JSON_stringify event' = inl cause ->
        handler event' env w = {| completion := Throw cause; world := w; events := [] |}).
Proof.
  intros cfg o1 o2. split_and!.
  - rewrite (handler_serialised event text env w Hser). apply handler_try_catch_responds.
  - intros event' e. destruct (JSON_stringify event') as [cause|text'] eqn:Hser'.
    + rewrite (handler_unserialisable event' cause env w Hser'). by intros [= ->].
    + rewrite (handler_serialised event' text' env w Hser').
      destruct (handler_try_catch_responds env w) as (response & -> & _). discriminate.
  - intros event' cause Hser'. exact (handler_unserialisable event' cause env w Hser').
Qed.

(** X2. In an invocation whose event serialises, a failure of key
    resolution aborts the invocation: the response is 500 with the
    message "Failed to retrieve PGP private key: ...", and the invocation
    has made no call besides the Secrets Manager fetch: no listing, no
    download, no decryption, no upload. *)
Theorem key_resolution_failure_aborts (event : E) text env e (w : W)
    (Hser : JSON_stringify event = inr text) :
  let o1 := handler_keys (Config.read env) w in
  completion o1 = Throw e ->
  handler event env w
  = {| completion := Normal {| statusCode := 500;
                               body := ErrorBody "Internal server error" (message e) |};
       world := world o1; events := events o1 |}
  /\ events (handler event env w) = [EvGetSecretValue (Config.secretName (Config.read env))]
  /\ exists cause, e = Error ("Failed to retrieve PGP private key: " +:+ message cause).
Proof.
  intros o1 H1. rewrite !(handler_serialised event text env w Hser).
  rewrite (handler_keys_failed env e w H1). fold o1.
  split; [done|]. split; [|exact (handler_keys_throws _ w e H1)].
  cbn [events]. destruct (truthy (env_value (Config.privateKey (Config.read env)))) eqn:Hk.
  - unfold o1 in H1. by rewrite handler_keys_override in H1.
  - unfold o1. by destruct (handler_keys_fetch (Config.read env) w Hk) as (-> & _).
Qed.

(** X3. In an invocation whose event serialises, a failure of the listing
    aborts the invocation: the response is 500 with the message
    "Failed to list files from S3: ...", the listing call is the last call
    made, and no object is touched. *)
Theorem listing_failure_aborts (event : E) text env keys e (w : W)
    (Hser : JSON_stringify event = inr text) :
  let cfg := Config.read env in
  let o1 := handler_keys cfg w in
  let o2 := listEncryptedFiles (Config.bucketName cfg) (Config.prefix cfg) (world o1) in
  completion o1 = Normal keys ->
  completion o2 = Throw e ->
  handler event env w
  = {| completion := Normal {| statusCode := 500;
                               body := ErrorBody "Internal server error" (message e) |};
       world := world o2;
       events := events o1 ++ [EvListObjectsV2 (Config.bucketName cfg) (Config.prefix cfg)] |}
  /\ List.filter is_object_work (events (handler event env w)) = []
  /\ exists cause, e = Error ("Failed to list files from S3: " +:+ message cause).
Proof.
  intros cfg o1 o2 H1 H2. rewrite !(handler_serialised event text env w Hser).
  rewrite (handler_listing_failed env keys e w H1 H2).
  fold cfg o1 o2. unfold o2. rewrite !listEncryptedFiles_events.
  split; [done|]. split; [|exact (listEncryptedFiles_throws _ _ (world o1) e H2)].
  cbn [events]. rewrite List.filter_app. cbn [List.filter is_object_work app].
  rewrite ?app_nil_r. pose proof (handler_keys_events cfg w) as Hf. fold o1 in Hf.
  induction Hf as [|ev evs Hev _ IH]; [done|]. cbn [List.filter]. by destruct ev.
Qed.

End Outcomes.

(** ** Key resolution from the secret *)

Section SecretResolution.
Context {W : Type} `{!SecretsManager W, !S3 W, !OpenPGP W, !Json}.

(** [getPGPPrivateKey], call by call. *)
Lemma getPGPPrivateKey_run secretName keyName_arg (w : W) :
  let keyName := default "pgp-key" keyName_arg in
  let failed cause w' :=
    {| completion :=
         Throw (Error ("Failed to retrieve PGP private key: " +:+ message cause));
       world := w'; events := [EvGetSecretValue secretName] |} in
  getPGPPrivateKey secretName keyName_arg w
  = match getSecretValue secretName w with
    | (inl cause, w') => failed cause w'
    | (inr result, w') =>
        match SecretString result with
        | Some s =>
            if truthy (VStr s) then
              match JSON_parse s with
              | inl cause => failed cause w'
              | inr secretData =>
                  match get_property secretData keyName with
                  | inl cause => failed cause w'
                  | inr field =>
                      if truthy field then
                        match get_property secretData "passphrase" with
                        | inl cause => failed cause w'
                        | inr pass =>
                            {| completion :=
                                 Normal {| SecretData.privateKey := field;
                                           SecretData.passphrase :=
                                             if truthy pass then pass else VNull |};
                               world := w'; events := [EvGetSecretValue secretName] |}
                        end
                      else failed (Error ("Secret does not contain " +:+ keyName +:+ " field")) w'
                  end
              end
            else failed (Error "Secret value is not a string") w'
        | None => failed (Error "Secret value is not a string") w'
        end
    end.
Proof.
  intros keyName failed. unfold getPGPPrivateKey, try_catch, bind, call, lift, ret, throw.
  fold keyName. cbv beta zeta.
  destruct (getSecretValue secretName w) as [[cause|[[s|]]] w']; simpl; try done.
  destruct (negb (String.eqb s "")); simpl; [|done].
  destruct (JSON_parse s) as [cause|secretData]; simpl; [done|].
  destruct (get_property secretData keyName) as [cause|field]; simpl; [done|].
  destruct (truthy field); simpl; [|done].
  by destruct (get_property secretData "passphrase").
Qed.

(** X4. What a successful key resolution from the secret returns: the
    secret had a non-empty text that parsed, the key is the configured
    field of the parsed payload (default name "pgp-key") and is truthy, and
    the passphrase is the payload's [passphrase] when that is truthy and
    [null] otherwise, so never [undefined] or an empty string. *)
Theorem resolved_secret secretName keyName_arg secretData (w : W) :
  let keyName := default "pgp-key" keyName_arg in
  completion (getPGPPrivateKey secretName keyName_arg w) = Normal secretData ->
  exists s payload pass w',
    getSecretValue secretName w = (inr {| SecretString := Some s |}, w')
    /\ s <> ""
    /\ JSON_parse s = inr payload
    /\ get_property payload keyName = inr (SecretData.privateKey secretData)
    /\ truthy (SecretData.privateKey secretData) = true
    /\ get_property payload "passphrase" = inr pass
    /\ SecretData.passphrase secretData = (if truthy pass then pass else VNull)
    /\ (truthy (SecretData.passphrase secretData) = true
        \/ SecretData.passphrase secretData = VNull).
Proof.
  intros keyName. rewrite getPGPPrivateKey_run. fold keyName. cbv zeta.
  destruct (getSecretValue secretName w) as [[cause|[[s|]]] w']; try done.
  cbn [SecretString]. destruct (truthy (VStr s)) eqn:Hs; [|done].
  destruct (JSON_parse s) as [cause|payload] eqn:Hparse; [done|].
  destruct (get_property payload keyName) as [cause|field] eqn:Hfield; [done|].
  destruct (truthy field) eqn:Hf; [|done].
  destruct (get_property payload "passphrase") as [cause|pass] eqn:Hpass; [done|].
  cbn [completion]. intros [= <-]. exists s, payload, pass, w'.
  cbn [SecretData.privateKey SecretData.passphrase].
  assert (s <> "") by (intros ->; discriminate).
  destruct (truthy pass) eqn:Hp; split_and!; try done; (by left) || (by right).
Qed.

(** X5. A key field that is there but falsy (an empty string, 0, false,
    null) is reported like a missing one: key resolution throws
    "Failed to retrieve PGP private key: Secret does not contain <name> field"
    after its single Secrets Manager call. *)
Theorem falsy_field_is_missing secretName keyName_arg s payload field (w w' : W) :
  let keyName := default "pgp-key" keyName_arg in
  getSecretValue secretName w = (inr {| SecretString := Some s |}, w') ->
  s <> "" ->
  JSON_parse s = inr payload ->
  get_property payload keyName = inr field ->
  truthy field = false ->
  getPGPPrivateKey secretName keyName_arg w
  = {| completion :=
         Throw (Error ("Failed to retrieve PGP private key: Secret does not contain "
                         +:+ keyName +:+ " field"));
       world := w'; events := [EvGetSecretValue secretName] |}.
Proof.
  intros keyName Hget Hs Hparse Hfield Hfalsy. rewrite getPGPPrivateKey_run.
  fold keyName. cbv zeta. rewrite Hget. cbn [SecretString].
  assert (truthy (VStr s) = true) as ->.
  { cbn. by destruct (String.eqb_spec s ""). }
  by rewrite Hparse, Hfield, Hfalsy.
Qed.

(** X6. A secret without text (a binary secret, or an empty string) is
    refused: key resolution throws
    "Failed to retrieve PGP private key: Secret value is not a string". *)
Theorem secret_without_text secretName keyName_arg result (w w' : W) :
  getSecretValue secretName w = (inr result, w') ->
  truthy (env_value (SecretString result)) = false ->
  getPGPPrivateKey secretName keyName_arg w
  = {| completion :=
         Throw (Error "Failed to retrieve PGP private key: Secret value is not a string");
       world := w'; events := [EvGetSecretValue secretName] |}.
Proof.
  intros Hget Hfalsy. rewrite getPGPPrivateKey_run. cbv zeta. rewrite Hget.
  destruct (SecretString result) as [s|]; [|done].
  change (truthy (env_value (Some s))) with (truthy (VStr s)) in Hfalsy. by rewrite Hfalsy.
Qed.

(** X7. A secret whose text is not JSON is refused with the parser's
    message behind the prefix "Failed to retrieve PGP private key: ". *)
Theorem secret_not_json secretName keyName_arg s cause (w w' : W) :
  getSecretValue secretName w = (inr {| SecretString := Some s |}, w') ->
  s <> "" ->
  JSON_parse s = inl cause ->
  getPGPPrivateKey secretName keyName_arg w
  = {| completion :=
         Throw (Error ("Failed to retrieve PGP private key: " +:+ message cause));
       world := w'; events := [EvGetSecretValue secretName] |}.
Proof.
  intros Hget Hs Hparse. rewrite getPGPPrivateKey_run. cbv zeta. rewrite Hget.
  cbn [SecretString]. assert (truthy (VStr s) = true) as ->.
  { cbn. by destruct (String.eqb_spec s ""). }
  by rewrite Hparse.
Qed.

End SecretResolution.

(** ** File names *)

Lemma split_segments sep s :
  Forall (fun seg => has_unit sep seg = false) (JsString.split sep s).
Proof.
  induction s as [|c rest IH]; simpl; [by repeat constructor|].
  destruct (Ascii.eqb c sep) eqn:Hc; [by constructor|].
  destruct (JsString.split sep rest) as [|seg segs]; [by repeat constructor; simpl; rewrite Hc|].
  inversion IH as [|? ? Hseg Hsegs]; subst. constructor; [|done]. simpl. by rewrite Hc.
Qed.

Lemma split_rejoin sep s :
  directory_of sep (JsString.split sep s) +:+ List.last (JsString.split sep s) "" = s.
Proof.
  induction s as [|c rest IH]; simpl; [done|].
  destruct (Ascii.eqb_spec c sep) as [->|Hc].
  - pose proof (split_not_nil sep rest) as Hne.
    destruct (JsString.split sep rest) as [|seg segs]; [done|].
    change (directory_of sep ("" :: seg :: segs))
      with ("" +:+ String sep (directory_of sep (seg :: segs))).
    change (List.last ("" :: seg :: segs) "") with (List.last (seg :: segs) "").
    exact (f_equal (String sep) IH).
  - destruct (JsString.split sep rest) as [|seg [|seg' segs]].
    + simpl in *. by rewrite <- IH.
    + simpl in *. by rewrite <- IH.
    + change (directory_of sep (String c seg :: seg' :: segs))
        with (String c seg +:+ String sep (directory_of sep (seg' :: segs))).
      change (directory_of sep (seg :: seg' :: segs))
        with (seg +:+ String sep (directory_of sep (seg' :: segs))) in IH.
      change (List.last (String c seg :: seg' :: segs) "") with (List.last (seg' :: segs) "").
      change (List.last (seg :: seg' :: segs) "") with (List.last (seg' :: segs) "") in IH.
      exact (f_equal (String c) IH).
Qed.

Lemma append_assoc (a b c : string) : (a +:+ b) +:+ c = a +:+ (b +:+ c).
Proof. induction a as [|x a IH]; [done|]. exact (f_equal (String x) IH). Qed.

Lemma directory_of_end sep segs :
  directory_of sep segs = "" \/ exists d, directory_of sep segs = d +:+ String sep "".
Proof.
  induction segs as [|seg [|seg' segs] IH]; [by left|by left|]. right.
  change (directory_of sep (seg :: seg' :: segs))
    with (seg +:+ String sep (directory_of sep (seg' :: segs))).
  destruct IH as [->|[d ->]].
  - by exists seg.
  - exists (seg +:+ String sep d). by rewrite append_assoc.
Qed.

Lemma last_pop (segs : list string) fileName :
  JsString.pop segs = Some fileName -> List.last segs "" = fileName.
Proof.
  unfold JsString.pop. induction segs as [|seg [|seg' segs] IH]; [done|by intros [= ->]|].
  intros Hl. by apply IH.
Qed.

(** X8. [key.split('/').pop()] is the base name of the key: it contains
    no '/', and the key is that name behind a directory part that is
    empty or ends with '/'. *)
Theorem last_segment key :
  exists fileName dir,
    JsString.pop (JsString.split "/" key) = Some fileName
    /\ key = dir +:+ fileName
    /\ has_unit "/" fileName = false
    /\ (dir = "" \/ exists d, dir = d +:+ "/").
Proof.
  destruct (pop_split "/" key) as [fileName Hpop].
  exists fileName, (directory_of "/" (JsString.split "/" key)). split_and!.
  - exact Hpop.
  - rewrite <- (last_pop _ _ Hpop). symmetry. apply split_rejoin.
  - pose proof (split_segments "/" key) as Hall.
    unfold JsString.pop in Hpop. apply last_Some in Hpop as [init Hsplit].
    rewrite Hsplit in Hall. apply Forall_app in Hall as [_ Hlast]. by inversion Hlast.
  - apply directory_of_end.
Qed.

Lemma substring_cut (a : nat) (s : string) :
  (a <= String.length s)%nat ->
  s = substring 0 a s +:+ substring a (String.length s - a) s.
Proof.
  revert s. induction a as [|a IH]; intros s Ha.
  - rewrite Nat.sub_0_r, substring_all. by destruct s.
  - destruct s as [|c s]; simpl in *; [lia|].
    exact (f_equal (String c) (IH s ltac:(lia))).
Qed.

Lemma endsWith_cut (s suffix : string) :
  JsString.endsWith s suffix = true -> exists base, s = base +:+ suffix.
Proof.
  unfold JsString.endsWith. intros [Hle Heq]%andb_true_iff.
  apply Nat.leb_le in Hle. apply String.eqb_eq in Heq.
  exists (substring 0 (String.length s - String.length suffix) s).
  rewrite <- Heq at 2.
  rewrite (substring_cut (String.length s - String.length suffix) s) at 1 by lia.
  do 2 f_equal. lia.
Qed.

(** X9. The decrypted name: a name ending with ".gpg" loses exactly that
    suffix; any other name gets ".decrypted" appended.  The two cases
    cover every name. *)
Theorem decrypted_name fileName :
  (exists base, fileName = base +:+ ".gpg" /\ decryptedFileName fileName = base)
  \/ (JsString.endsWith fileName ".gpg" = false
      /\ decryptedFileName fileName = fileName +:+ ".decrypted").
Proof.
  destruct (JsString.endsWith fileName ".gpg") eqn:He.
  - left. destruct (endsWith_cut _ _ He) as [base ->]. exists base.
    split; [done|apply decryptedFileName_gpg].
  - right. split; [done|by apply decryptedFileName_other].
Qed.

(** X10. Decrypted names can collide: for a name [n] that does not end
    with ".gpg", the different name [n.decrypted.gpg] gets the same
    decrypted name [n.decrypted]. *)
Theorem decrypted_names_collide name :
  JsString.endsWith name ".gpg" = false ->
  name +:+ ".decrypted.gpg" <> name
  /\ decryptedFileName (name +:+ ".decrypted.gpg") = decryptedFileName name.
Proof.
  intros He. split.
  - intros Heq. apply (f_equal String.length) in Heq. rewrite length_append in Heq.
    simpl in Heq. lia.
  - rewrite (decryptedFileName_other name He).
    change ".decrypted.gpg" with (".decrypted" +:+ ".gpg").
    rewrite <- append_assoc. apply decryptedFileName_gpg.
Qed.

Lemma decrypted_name_witness :
  (exists base, "report.csv.gpg" = base +:+ ".gpg" /\ decryptedFileName "report.csv.gpg" = base)
  \/ (JsString.endsWith "report.csv.gpg" ".gpg" = false
      /\ decryptedFileName "report.csv.gpg" = "report.csv.gpg" +:+ ".decrypted").
Proof. exact (decrypted_name "report.csv.gpg"). Defined.

Lemma decrypted_names_collide_witness :
  JsString.endsWith "a" ".gpg" = false
  /\ "a" +:+ ".decrypted.gpg" <> "a"
  /\ decryptedFileName ("a" +:+ ".decrypted.gpg") = decryptedFileName "a".
Proof.
  assert (He : JsString.endsWith "a" ".gpg" = false) by reflexivity.
  split; [exact He|]. exact (decrypted_names_collide "a" He).
Defined.

Lemma last_segment_witness :
  exists fileName dir,
    JsString.pop (JsString.split "/" "in/2024/a.gpg") = Some fileName
    /\ "in/2024/a.gpg" = dir +:+ fileName
    /\ has_unit "/" fileName = false
    /\ (dir = "" \/ exists d, dir = d +:+ "/").
Proof. exact (last_segment "in/2024/a.gpg"). Defined.

(** ** What the loop does to each object *)

Section Objects.
Context {W : Type} `{!SecretsManager W, !S3 W, !OpenPGP W, !Json}.
Variables (bucketName : string) (pgpPrivateKey pgpPassphrase : jsval).

Lemma decryptFile_events_keys encryptedData (w : W) :
  Forall (fun ev => carries_keys pgpPrivateKey pgpPassphrase ev /\ is_upload ev = false
                      /\ is_object_work ev = true)
         (events (decryptFile encryptedData pgpPrivateKey pgpPassphrase w)).
Proof.
  unfold decryptFile. rewrite rethrow_events. unfold bind, call, ret.
  destruct (readPrivateKey pgpPrivateKey w) as [[e1|k1] w1]; simpl; [by repeat constructor|].
  destruct (truthy pgpPassphrase) eqn:Hp; simpl.
  - destruct (decryptKey k1 pgpPassphrase w1) as [[e2|k2] w2]; simpl; [by repeat constructor|].
    destruct (readMessage encryptedData w2) as [[e3|m] w3]; simpl; [by repeat constructor|].
    destruct (decrypt m k2 w3) as [[e4|plain] w4]; simpl; by repeat constructor.
  - destruct (readMessage encryptedData w1) as [[e3|m] w3]; simpl; [by repeat constructor|].
    destruct (decrypt m k1 w3) as [[e4|plain] w4]; simpl; by repeat constructor.
Qed.

Lemma decryptFile_no_decryptKey encryptedData (w : W) :
  truthy pgpPassphrase = false ->
  List.filter is_decrypt_key (events (decryptFile encryptedData pgpPrivateKey pgpPassphrase w))
  = [].
Proof.
  intros Hp. unfold decryptFile. rewrite rethrow_events. unfold bind, call, ret. rewrite Hp.
  destruct (readPrivateKey pgpPrivateKey w) as [[e1|k1] w1]; simpl; [done|].
  destruct (readMessage encryptedData w1) as [[e3|m] w3]; simpl; [done|].
  by destruct (decrypt m k1 w3) as [[e4|plain] w4].
Qed.

(** One iteration on an object, call by call: the outcome does not
    depend on the destination prefix, and the results so far are only
    extended. *)
Lemma process_file_run decryptedPrefix file acc (w : W) :
  is_directory file = false ->
  process_file bucketName pgpPrivateKey pgpPassphrase decryptedPrefix file acc w
  = match getObject bucketName (Key file) w with
    | (inl cause, w1) =>
        {| completion :=
             Normal (acc ++ [Failed (Key file)
                               ("Failed to download file " +:+ Key file +:+ ": "
                                  +:+ message cause) "failed"]);
           world := w1; events := [EvGetObject bucketName (Key file)] |}
    | (inr result, w1) =>
        let d := decryptFile (Body result) pgpPrivateKey pgpPassphrase w1 in
        {| completion :=
             Normal (acc ++ [Failed (Key file)
                               match completion d with
                               | Normal _ =>
                                   "Failed to upload decrypted file: decryptedPrefix is not defined"
                               | Throw e => message e
                               end "failed"]);
           world := world d;
           events := EvGetObject bucketName (Key file) :: events d |}
    end.
Proof.
  intros Hdir. unfold process_file, try_catch. cbv zeta.
  rewrite (process_try_run _ _ _ _ file acc w Hdir).
  destruct (getObject bucketName (Key file) w) as [[cause|result] w1].
  - cbn [completion world events ret message]. by rewrite app_nil_r.
  - cbv zeta. cbn [completion world events].
    destruct (completion (decryptFile (Body result) pgpPrivateKey pgpPassphrase w1));
      cbn [completion world events ret message]; by rewrite app_nil_r.
Qed.

(** What one iteration contributes, whatever the results so far and the
    destination prefix. *)
Lemma process_file_step file (w : W) :
  exists rs w1 evs,
    (forall decryptedPrefix acc,
        process_file bucketName pgpPrivateKey pgpPassphrase decryptedPrefix file acc w
        = {| completion := Normal (acc ++ rs); world := w1; events := evs |})
    /\ Forall (fun r => has_error_field r = true) rs
    /\ Forall (fun ev => carries_keys pgpPrivateKey pgpPassphrase ev /\ is_upload ev = false
                      /\ is_object_work ev = true) evs
    /\ (truthy pgpPassphrase = false -> List.filter is_decrypt_key evs = []).
Proof.
  destruct (is_directory file) eqn:Hdir.
  { exists [], w, []. split_and!; try done.
    intros dp acc. rewrite (process_file_directory _ _ _ dp file acc w Hdir).
    by rewrite app_nil_r. }
  destruct (getObject bucketName (Key file) w) as [[cause|result] w1] eqn:Hget.
  - eexists [_], w1, [_]. split_and!.
    + intros dp acc. rewrite (process_file_run dp file acc w Hdir), Hget. reflexivity.
    + by repeat constructor.
    + by repeat constructor.
    + done.
  - eexists [_], _, (_ :: _). split_and!.
    + intros dp acc. rewrite (process_file_run dp file acc w Hdir), Hget. reflexivity.
    + by repeat constructor.
    + constructor; [done|]. apply decryptFile_events_keys.
    + intros Hp. cbn [List.filter is_decrypt_key]. by apply decryptFile_no_decryptKey.
Qed.

(** The loop, whatever the results it starts from and the destination
    prefix. *)
Lemma process_files_steps files (w : W) :
  exists rs w1 evs,
    (forall decryptedPrefix acc,
        process_files bucketName pgpPrivateKey pgpPassphrase decryptedPrefix files acc w
        = {| completion := Normal (acc ++ rs); world := w1; events := evs |})
    /\ Forall (fun r => has_error_field r = true) rs
    /\ Forall (fun ev => carries_keys pgpPrivateKey pgpPassphrase ev /\ is_upload ev = false
                      /\ is_object_work ev = true) evs
    /\ (truthy pgpPassphrase = false -> List.filter is_decrypt_key evs = []).
Proof.
  revert w. induction files as [|file rest IH]; intros w.
  { exists [], w, []. split_and!; try done. intros dp acc. simpl. unfold ret.
    by rewrite app_nil_r. }
  destruct (process_file_step file w) as (rs1 & w1 & evs1 & Hrun1 & Herr1 & Hev1 & Hp1).
  destruct (IH w1) as (rs2 & w2 & evs2 & Hrun2 & Herr2 & Hev2 & Hp2).
  exists (rs1 ++ rs2), w2, (evs1 ++ evs2). split_and!.
  - intros dp acc.
    rewrite (process_files_cons _ _ _ dp file rest acc (acc ++ rs1) w)
      by now rewrite Hrun1.
    rewrite Hrun1. cbn [completion world events]. rewrite Hrun2.
    cbn [completion world events]. by rewrite app_assoc.
  - by apply Forall_app.
  - by apply Forall_app.
  - intros Hp. rewrite List.filter_app, Hp1, Hp2; done.
Qed.

(** X11. A failed download ends the work on that object: it is recorded
    as failed under its key with the message
    "Failed to download file <key>: <cause>", and no decryption or upload
    call is made for it. *)
Theorem download_failure_skips_decryption decryptedPrefix file acc cause (w w1 : W) :
  is_directory file = false ->
  getObject bucketName (Key file) w = (inl cause, w1) ->
  process_file bucketName pgpPrivateKey pgpPassphrase decryptedPrefix file acc w
  = {| completion :=
         Normal (acc ++ [Failed (Key file)
                           ("Failed to download file " +:+ Key file +:+ ": " +:+ message cause)
                           "failed"]);
       world := w1; events := [EvGetObject bucketName (Key file)] |}.
Proof. intros Hdir Hget. by rewrite (process_file_run _ file acc w Hdir), Hget. Qed.

(** X12. An object whose download and decryption both succeed is still
    recorded as failed, with the message
    "Failed to upload decrypted file: decryptedPrefix is not defined":
    the iteration stops at the destination key, the plaintext is dropped
    and no upload call is made. *)
Theorem decrypted_object_fails_at_upload decryptedPrefix file acc result plain (w w1 : W) :
  is_directory file = false ->
  getObject bucketName (Key file) w = (inr result, w1) ->
  let d := decryptFile (Body result) pgpPrivateKey pgpPassphrase w1 in
  completion d = Normal plain ->
  process_file bucketName pgpPrivateKey pgpPassphrase decryptedPrefix file acc w
  = {| completion :=
         Normal (acc ++ [Failed (Key file)
                           "Failed to upload decrypted file: decryptedPrefix is not defined"
                           "failed"]);
       world := world d; events := EvGetObject bucketName (Key file) :: events d |}
  /\ List.filter is_upload (EvGetObject bucketName (Key file) :: events d) = [].
Proof.
  intros Hdir Hget d Hd. rewrite (process_file_run _ file acc w Hdir), Hget. cbv zeta.
  fold d. rewrite Hd. split; [done|]. cbn [List.filter is_upload].
  pose proof (decryptFile_events_keys (Body result) w1) as Hev. fold d in Hev.
  induction Hev as [|ev evs (_ & Hup & _) _ IH]; [done|]. cbn [List.filter]. by rewrite Hup.
Qed.

(** X13. The result sequence only grows: running the loop from results
    [acc] makes the same calls and leaves the same world as running it
    from the empty sequence, and its results are [acc] followed by the
    results of that run; earlier results are neither changed nor read. *)
Theorem results_append_only decryptedPrefix files acc (w : W) :
  let o := process_files bucketName pgpPrivateKey pgpPassphrase decryptedPrefix files acc w in
  let o0 := process_files bucketName pgpPrivateKey pgpPassphrase decryptedPrefix files [] w in
  world o = world o0
  /\ events o = events o0
  /\ exists rs, completion o0 = Normal rs /\ completion o = Normal (acc ++ rs).
Proof.
  destruct (process_files_steps files w) as (rs & w1 & evs & Hrun & _).
  cbv zeta. rewrite (Hrun decryptedPrefix acc), (Hrun decryptedPrefix []).
  split_and!; try done. by exists rs.
Qed.

End Objects.

(** ** What an invocation does as a whole *)

Section Invocation.
Context {W : Type} `{!SecretsManager W, !S3 W, !OpenPGP W, !Json} {E : Type} `{!TriggerEvent E}.

(** The calls after the listing: they use the resolved key material and
    none is an upload. *)
Lemma handler_process_work cfg keys (w : W) :
  let o2 := listEncryptedFiles (Config.bucketName cfg) (Config.prefix cfg) w in
  exists evs,
    events (handler_process cfg keys w) = events o2 ++ evs
    /\ Forall (fun ev => carries_keys keys.1 keys.2 ev /\ is_upload ev = false
                      /\ is_object_work ev = true) evs
    /\ (truthy keys.2 = false -> List.filter is_decrypt_key evs = []).
Proof.
  intros o2. unfold handler_process. destruct keys as [k p]. unfold bind. cbv beta zeta.
  fold o2. destruct o2 as [[files|e] w2 evs2]; cbn [completion world events];
    [|by exists []; rewrite app_nil_r].
  destruct files as [|file rest]; cbn [length Nat.eqb completion world events ret].
  { by exists []. }
  destruct (process_files_steps (Config.bucketName cfg) k p (file :: rest) w2)
    as (rs & w3 & evs3 & Hrun & _ & Hev & Hp).
  rewrite (Hrun (Config.decryptedPrefix cfg) []). cbn [completion world events].
  exists evs3. by rewrite app_nil_r.
Qed.

Lemma handler_work env (w : W) :
  let cfg := Config.read env in
  let o1 := handler_keys cfg w in
  let o2 := listEncryptedFiles (Config.bucketName cfg) (Config.prefix cfg) (world o1) in
  match completion o1 with
  | Throw _ => events (handler_try_catch env w) = events o1
  | Normal keys =>
      exists evs,
        events (handler_try_catch env w) = events o1 ++ events o2 ++ evs
        /\ Forall (fun ev => carries_keys keys.1 keys.2 ev /\ is_upload ev = false
                      /\ is_object_work ev = true) evs
        /\ (truthy keys.2 = false -> List.filter is_decrypt_key evs = [])
  end.
Proof.
  intros cfg o1 o2. rewrite handler_events. fold cfg o1.
  destruct (completion o1) as [keys|e]; [|by rewrite app_nil_r].
  destruct (handler_process_work cfg keys (world o1)) as (evs & -> & Hev & Hp).
  fold o2. by exists evs.
Qed.

Lemma fetch_events_plain (k p : jsval) (evs : list Event) :
  Forall (fun ev => is_fetch ev = true) evs ->
  Forall (fun ev => carries_keys k p ev /\ is_upload ev = false
                    /\ is_decrypt_key ev = false /\ is_listing ev = false) evs.
Proof. intros Hf. eapply Forall_impl; [exact Hf|]. intros ev. by destruct ev. Qed.

Lemma filter_none {A} (f : A -> bool) (l : list A) :
  Forall (fun x => f x = false) l -> List.filter f l = [].
Proof. induction 1 as [|x l Hx _ IH]; [done|]. simpl. by rewrite Hx. Qed.

(** X14. As [index.js] stands, no invocation uploads anything and no
    object is ever reported as a success: every result of a summary
    carries an [error] field, [successCount] is 0 and [failureCount] is the
    number of results. *)
Theorem no_object_ever_succeeds (event : E) env (w : W) :
  List.filter is_upload (events (handler event env w)) = []
  /\ forall msg results,
       completion (handler event env w)
       = Normal {| statusCode := 200; body := SummaryBody msg results |} ->
       Forall (fun r => has_error_field r = true) results
       /\ successCount results = 0%nat
       /\ failureCount results = length results.
Proof.
  destruct (JSON_stringify event) as [cause|text] eqn:Hser;
    [by rewrite !(handler_unserialisable event cause env w Hser)|].
  rewrite !(handler_serialised event text env w Hser).
  set (cfg := Config.read env). set (o1 := handler_keys cfg w).
  set (o2 := listEncryptedFiles (Config.bucketName cfg) (Config.prefix cfg) (world o1)).
  split.
  - pose proof (handler_work env w) as Hw. cbv zeta in Hw. fold cfg o1 o2 in Hw.
    pose proof (fetch_events_plain VUndefined VUndefined _ (handler_keys_events cfg w)) as Hf.
    fold o1 in Hf. apply filter_none.
    destruct (completion o1) as [keys|e].
    + destruct Hw as (evs & -> & Hev & _). rewrite !Forall_app. split_and!.
      * eapply Forall_impl; [exact Hf|]. by intros ev (_ & ? & _).
      * unfold o2. rewrite listEncryptedFiles_events. by repeat constructor.
      * eapply Forall_impl; [exact Hev|]. by intros ev (_ & ? & _).
    + rewrite Hw. eapply Forall_impl; [exact Hf|]. by intros ev (_ & ? & _).
  - intros msg results.
    destruct (completion o1) as [keys|e1] eqn:H1;
      [|by rewrite (handler_keys_failed env e1 w H1)].
    destruct (completion o2) as [files|e2] eqn:H2;
      [|by rewrite (handler_listing_failed env keys e2 w H1 H2)].
    rewrite (handler_listed env keys files w H1 H2). fold cfg o1 o2.
    destruct files as [|file rest]; [done|].
    destruct (process_files_steps (Config.bucketName cfg) keys.1 keys.2 (file :: rest)
                (world o2)) as (rs & w3 & evs3 & Hrun & Herr & _).
    destruct (process_files_spec (Config.bucketName cfg) keys.1 keys.2
                (Config.decryptedPrefix cfg) (file :: rest) [] (world o2))
      as (rs' & Hc & _ & Htruthy & _).
    cbv zeta in Hc |- *. rewrite (Hrun (Config.decryptedPrefix cfg) []) in Hc |- *.
    cbn [completion] in Hc |- *. injection Hc as <-.
    intros [= _ <-]. split; [done|].
    assert (Hall : Forall (fun r => truthy (error r) = true) rs).
    { apply Forall_forall. intros r Hr.
      rewrite (proj1 (Forall_forall _ _) Htruthy r Hr).
      exact (proj1 (Forall_forall _ _) Herr r Hr). }
    unfold successCount, failureCount. clear -Hall.
    induction Hall as [|r rs Hr _ [IHs IHf]]; [done|]. simpl. rewrite Hr. simpl.
    split; [exact IHs|by rewrite IHf].
Qed.

(** X15. The listing is a single call: an invocation whose event
    serialises and whose key resolution succeeds makes exactly one
    listObjectsV2 call, for the configured bucket and prefix, whatever the
    number of objects (no continuation is requested); one whose key
    resolution fails makes none. *)
Theorem one_listing_call (event : E) text env (w : W)
    (Hser : JSON_stringify event = inr text) :
  let cfg := Config.read env in
  List.filter is_listing (events (handler event env w))
  = match completion (handler_keys cfg w) with
    | Normal _ => [EvListObjectsV2 (Config.bucketName cfg) (Config.prefix cfg)]
    | Throw _ => []
    end.
Proof.
  intros cfg. rewrite (handler_serialised event text env w Hser).
  pose proof (handler_work env w) as Hw. fold cfg in Hw. cbv zeta in Hw.
  pose proof (fetch_events_plain VUndefined VUndefined _ (handler_keys_events cfg w)) as Hf.
  assert (Hf' : List.filter is_listing (events (handler_keys cfg w)) = []).
  { apply filter_none. eapply Forall_impl; [exact Hf|]. by intros ev (_ & _ & _ & ?). }
  destruct (completion (handler_keys cfg w)) as [keys|e].
  - destruct Hw as (evs & -> & Hev & _).
    rewrite !List.filter_app, Hf', listEncryptedFiles_events.
    cbn [List.filter is_listing app]. f_equal. apply filter_none.
    eapply Forall_impl; [exact Hev|]. intros ev (_ & _ & Hwork). by destruct ev.
  - by rewrite Hw.
Qed.

(** X16. The key material is resolved once and used for every object:
    each readPrivateKey call of the invocation is given the resolved key,
    and each decryptKey call the resolved passphrase, which is then
    truthy. *)
Theorem key_material_reused (event : E) env keys (w : W) :
  completion (handler_keys (Config.read env) w) = Normal keys ->
  Forall (carries_keys keys.1 keys.2) (events (handler event env w)).
Proof.
  intros H1.
  destruct (JSON_stringify event) as [cause|text] eqn:Hser;
    [by rewrite (handler_unserialisable event cause env w Hser)|].
  rewrite (handler_serialised event text env w Hser).
  pose proof (handler_work env w) as Hw. cbv zeta in Hw. rewrite H1 in Hw.
  destruct Hw as (evs & -> & Hev & _). rewrite !Forall_app. split_and!.
  - eapply Forall_impl;
      [exact (fetch_events_plain keys.1 keys.2 _ (handler_keys_events (Config.read env) w))|].
    by intros ev [? _].
  - rewrite listEncryptedFiles_events. by repeat constructor.
  - eapply Forall_impl; [exact Hev|]. by intros ev [? _].
Qed.

(** X17. Without a passphrase the key is used as it is: when the
    resolved passphrase is falsy ([undefined] from the environment, or
    [null] from a secret without one), the invocation makes no decryptKey
    call at all. *)
Theorem no_passphrase_no_decryptKey (event : E) env keys (w : W) :
  completion (handler_keys (Config.read env) w) = Normal keys ->
  truthy keys.2 = false ->
  List.filter is_decrypt_key (events (handler event env w)) = [].
Proof.
  intros H1 Hp.
  destruct (JSON_stringify event) as [cause|text] eqn:Hser;
    [by rewrite (handler_unserialisable event cause env w Hser)|].
  rewrite (handler_serialised event text env w Hser).
  pose proof (handler_work env w) as Hw. cbv zeta in Hw. rewrite H1 in Hw.
  destruct Hw as (evs & -> & _ & Hnone). rewrite !List.filter_app, (Hnone Hp).
  rewrite listEncryptedFiles_events. cbn [List.filter is_decrypt_key app].
  rewrite app_nil_r. apply filter_none.
  eapply Forall_impl;
    [exact (fetch_events_plain keys.1 keys.2 _ (handler_keys_events (Config.read env) w))|].
  by intros ev (_ & _ & ? & _).
Qed.

End Invocation.

(** ** Settings that change nothing, listings without objects *)

Section Settings.
Context {W : Type} `{!SecretsManager W, !S3 W, !OpenPGP W, !Json} {E : Type} `{!TriggerEvent E}.

Lemma handler_process_agree cfg cfg' keys (w : W) :
  Config.bucketName cfg = Config.bucketName cfg' ->
  Config.prefix cfg = Config.prefix cfg' ->
  handler_process cfg keys w = handler_process cfg' keys w.
Proof.
  intros Hb Hp. unfold handler_process. destruct keys as [k p]. rewrite <- Hb, <- Hp.
  unfold bind. cbv beta zeta.
  destruct (listEncryptedFiles (Config.bucketName cfg) (Config.prefix cfg) w)
    as [[files|e] w2 evs2]; cbn [completion world events]; [|done].
  destruct files as [|file rest]; cbn [length Nat.eqb completion world events ret]; [done|].
  destruct (process_files_steps (Config.bucketName cfg) k p (file :: rest) w2)
    as (rs & w3 & evs3 & Hrun & _).
  by rewrite (Hrun (Config.decryptedPrefix cfg) []), (Hrun (Config.decryptedPrefix cfg') []).
Qed.

(** The invocation reads the configuration through six values only. *)
Lemma handler_agree env env' (w : W) :
  let cfg := Config.read env in
  let cfg' := Config.read env' in
  Config.bucketName cfg = Config.bucketName cfg' ->
  Config.prefix cfg = Config.prefix cfg' ->
  Config.secretName cfg = Config.secretName cfg' ->
  Config.privateKey cfg = Config.privateKey cfg' ->
  Config.passphrase cfg = Config.passphrase cfg' ->
  Config.keyName cfg = Config.keyName cfg' ->
  handler_try_catch env w = handler_try_catch env' w.
Proof.
  intros cfg cfg' Hb Hp Hs Hk Hpass Hn. unfold handler_try_catch, handler_try. cbv zeta. fold cfg cfg'.
  assert (Hkeys : handler_keys cfg w = handler_keys cfg' w).
  { unfold handler_keys. by rewrite Hs, Hk, Hpass, Hn. }
  unfold try_catch, bind. cbv beta zeta. rewrite <- Hkeys.
  destruct (handler_keys cfg w) as [[keys|e] w1 evs1]; cbn [completion world events]; [|done].
  by rewrite (handler_process_agree cfg cfg' keys w1 Hb Hp).
Qed.

(** X18. Two settings change nothing.  [encryptedPrefix] is read and
    never used; [decryptedPrefix] is only handed to
    [uploadDecryptedFile], which does not reach it.  Whatever value either
    is given, the invocation makes the same calls and returns the same
    response. *)
Theorem prefix_settings_ignored (event : E) env v (w : W) :
  handler event (<["encryptedPrefix" := v]> env) w = handler event env w
  /\ handler event (<["decryptedPrefix" := v]> env) w = handler event env w.
Proof.
  destruct (JSON_stringify event) as [cause|text] eqn:Hser;
    [by rewrite !(handler_unserialisable event cause _ w Hser)|].
  rewrite !(handler_serialised event text _ w Hser).
  split; apply handler_agree; unfold Config.read;
    cbn [Config.bucketName Config.prefix Config.secretName Config.privateKey
         Config.passphrase Config.keyName];
    by rewrite !lookup_insert_ne.
Qed.

Lemma process_files_markers bucketName k p decryptedPrefix files acc (w : W) :
  Forall (fun file => is_directory file = true) files ->
  process_files bucketName k p decryptedPrefix files acc w
  = {| completion := Normal acc; world := w; events := [] |}.
Proof.
  induction 1 as [|file rest Hdir _ IH]; [done|].
  pose proof (process_file_directory bucketName k p decryptedPrefix file acc w Hdir) as Hrun.
  rewrite (process_files_cons _ _ _ _ file rest acc acc w) by now rewrite Hrun.
  rewrite Hrun. cbn [completion world events]. by rewrite IH.
Qed.

(** X19. A listing that holds directory markers only is not the "no
    files" case: when the event serialises, the handler answers 200 with
    an empty [results] and the message
    "Processed <n> files. Success: 0, Failures: 0", [n] being the number
    of markers, and touches no object. *)
Theorem listing_of_markers (event : E) text env keys files (w : W)
    (Hser : JSON_stringify event = inr text) :
  let cfg := Config.read env in
  let o1 := handler_keys cfg w in
  let o2 := listEncryptedFiles (Config.bucketName cfg) (Config.prefix cfg) (world o1) in
  completion o1 = Normal keys ->
  completion o2 = Normal files ->
  files <> [] ->
  Forall (fun file => is_directory file = true) files ->
  handler event env w
  = {| completion :=
         Normal {| statusCode := 200;
                   body := SummaryBody
                             ("Processed " +:+ JsString.of_nat (length files)
                                +:+ " files. Success: 0, Failures: 0") [] |};
       world := world o2; events := events o1 ++ events o2 |}.
Proof.
  intros cfg o1 o2 H1 H2 Hne Hall. rewrite (handler_serialised event text env w Hser).
  rewrite (handler_listed env keys files w H1 H2).
  fold cfg o1 o2. destruct files as [|file rest]; [done|].
  cbv zeta. rewrite (process_files_markers _ _ _ _ _ [] (world o2) Hall).
  cbn [completion world events]. by rewrite app_nil_r.
Qed.

End Settings.

(** * Further concrete runs *)

(** ** Keys from the scripted secrets store *)

Section VaultRun.
#[local] Existing Instances Vault.vault_secretsManager Vault.vault_s3
  Vault.vault_openpgp Vault.vault_json Scripted.trigger.

Lemma handler_responds_witness :
  let env := Vault.env_secret "pgp-key" in
  let cfg := Config.read env in
  let o1 := handler_keys cfg 0%nat in
  let o2 := listEncryptedFiles (Config.bucketName cfg) (Config.prefix cfg) (world o1) in
  JSON_stringify Scripted.EmptyObject = inr "{}"
  /\ (exists response,
        completion (handler Scripted.EmptyObject env 0%nat) = Normal response
        /\ (statusCode response = 200%Z \/ statusCode response = 500%Z)
        /\ (statusCode response = 200%Z <->
            exists keys files, completion o1 = Normal keys /\ completion o2 = Normal files))
  /\ handler Scripted.HoldsBigInt env 0%nat
     = {| completion := Throw (TypeError "Do not know how to serialize a BigInt");
          world := 0%nat; events := [] |}.
Proof.
  intros env cfg o1 o2.
  assert (Hser : JSON_stringify Scripted.EmptyObject = inr "{}") by reflexivity.
  destruct (handler_responds Scripted.EmptyObject "{}" env 0%nat Hser)
    as (Hresponds & _ & Hrejects).
  split; [exact Hser|]. split; [exact Hresponds|].
  exact (Hrejects Scripted.HoldsBigInt _ eq_refl).
Defined.

Lemma key_resolution_failure_aborts_witness :
  let env := Vault.env_secret "blank" in
  let e := Error "Failed to retrieve PGP private key: Secret does not contain pgp-key field" in
  let o1 := handler_keys (Config.read env) 0%nat in
  (JSON_stringify Scripted.EmptyObject = inr "{}" /\ completion o1 = Throw e)
  /\ handler Scripted.EmptyObject env 0%nat
     = {| completion := Normal {| statusCode := 500;
                                  body := ErrorBody "Internal server error" (message e) |};
          world := world o1; events := events o1 |}
  /\ events (handler Scripted.EmptyObject env 0%nat)
     = [EvGetSecretValue (Config.secretName (Config.read env))]
  /\ exists cause, e = Error ("Failed to retrieve PGP private key: " +:+ message cause).
Proof.
  intros env e o1.
  assert (Hser : JSON_stringify Scripted.EmptyObject = inr "{}") by reflexivity.
  assert (H1 : completion o1 = Throw e) by (vm_compute; reflexivity).
  split; [by split|].
  exact (key_resolution_failure_aborts Scripted.EmptyObject "{}" env e 0%nat Hser H1).
Defined.

Lemma resolved_secret_witness :
  let secretData := {| SecretData.privateKey := VStr "ARMORED KEY";
                       SecretData.passphrase := VStr "hunter2" |} in
  completion (getPGPPrivateKey (Some "pgp-key") None 0%nat) = Normal secretData
  /\ exists s payload pass w',
       getSecretValue (Some "pgp-key") 0%nat = (inr {| SecretString := Some s |}, w')
       /\ s <> ""
       /\ JSON_parse s = inr payload
       /\ get_property payload "pgp-key" = inr (SecretData.privateKey secretData)
       /\ truthy (SecretData.privateKey secretData) = true
       /\ get_property payload "passphrase" = inr pass
       /\ SecretData.passphrase secretData = (if truthy pass then pass else VNull)
       /\ (truthy (SecretData.passphrase secretData) = true
           \/ SecretData.passphrase secretData = VNull).
Proof.
  intros secretData.
  assert (Hc : completion (getPGPPrivateKey (Some "pgp-key") None 0%nat) = Normal secretData)
    by (vm_compute; reflexivity).
  split; [exact Hc|]. exact (resolved_secret (Some "pgp-key") None secretData 0%nat Hc).
Defined.

Lemma falsy_field_is_missing_witness :
  (getSecretValue (Some "blank") 0%nat
   = (inr {| SecretString := Some Vault.blank_text |}, 1%nat)
   /\ Vault.blank_text <> ""
   /\ JSON_parse Vault.blank_text = inr (JObject [("pgp-key", JString "")])
   /\ get_property (JObject [("pgp-key", JString "")]) "pgp-key" = inr (VStr "")
   /\ truthy (VStr "") = false)
  /\ getPGPPrivateKey (Some "blank") None 0%nat
     = {| completion :=
            Throw (Error ("Failed to retrieve PGP private key: Secret does not contain "
                            +:+ "pgp-key" +:+ " field"));
          world := 1%nat; events := [EvGetSecretValue (Some "blank")] |}.
Proof.
  assert (Hget : getSecretValue (Some "blank") 0%nat
                 = (inr {| SecretString := Some Vault.blank_text |}, 1%nat)) by reflexivity.
  assert (Hs : Vault.blank_text <> "") by discriminate.
  assert (Hparse : JSON_parse Vault.blank_text = inr (JObject [("pgp-key", JString "")]))
    by (vm_compute; reflexivity).
  assert (Hfield : get_property (JObject [("pgp-key", JString "")]) "pgp-key" = inr (VStr ""))
    by reflexivity.
  assert (Hfalsy : truthy (VStr "") = false) by reflexivity.
  split; [by split_and!|].
  exact (falsy_field_is_missing (Some "blank") None Vault.blank_text _ _ 0%nat 1%nat
           Hget Hs Hparse Hfield Hfalsy).
Defined.

Lemma secret_without_text_witness :
  (getSecretValue (Some "binary") 0%nat = (inr {| SecretString := None |}, 1%nat)
   /\ truthy (env_value (SecretString {| SecretString := None |})) = false)
  /\ getPGPPrivateKey (Some "binary") None 0%nat
     = {| completion :=
            Throw (Error "Failed to retrieve PGP private key: Secret value is not a string");
          world := 1%nat; events := [EvGetSecretValue (Some "binary")] |}.
Proof.
  assert (Hget : getSecretValue (Some "binary") 0%nat
                 = (inr {| SecretString := None |}, 1%nat)) by reflexivity.
  assert (Hfalsy : truthy (env_value (SecretString {| SecretString := None |})) = false)
    by reflexivity.
  split; [by split|].
  exact (secret_without_text (Some "binary") None _ 0%nat 1%nat Hget Hfalsy).
Defined.

Lemma secret_not_json_witness :
  (getSecretValue (Some "garbled") 0%nat
   = (inr {| SecretString := Some "not json" |}, 1%nat)
   /\ "not json" <> ""
   /\ JSON_parse "not json" = inl (SyntaxError "Unexpected token"))
  /\ getPGPPrivateKey (Some "garbled") None 0%nat
     = {| completion :=
            Throw (Error ("Failed to retrieve PGP private key: "
                            +:+ message (SyntaxError "Unexpected token")));
          world := 1%nat; events := [EvGetSecretValue (Some "garbled")] |}.
Proof.
  assert (Hget : getSecretValue (Some "garbled") 0%nat
                 = (inr {| SecretString := Some "not json" |}, 1%nat)) by reflexivity.
  assert (Hs : "not json" <> "") by discriminate.
  assert (Hparse : JSON_parse "not json" = inl (SyntaxError "Unexpected token"))
    by (vm_compute; reflexivity).
  split; [by split_and!|].
  exact (secret_not_json (Some "garbled") None "not json" _ 0%nat 1%nat Hget Hs Hparse).
Defined.

Lemma key_material_reused_witness :
  let env := Vault.env_secret "pgp-key" in
  let keys := (VStr "ARMORED KEY", VStr "hunter2") in
  completion (handler_keys (Config.read env) 0%nat) = Normal keys
  /\ Forall (carries_keys keys.1 keys.2) (events (handler Scripted.EmptyObject env 0%nat)).
Proof.
  intros env keys.
  assert (H1 : completion (handler_keys (Config.read env) 0%nat) = Normal keys)
    by (vm_compute; reflexivity).
  split; [exact H1|]. exact (key_material_reused Scripted.EmptyObject env keys 0%nat H1).
Defined.

Lemma no_passphrase_no_decryptKey_witness :
  let env := Vault.env_secret "unlocked" in
  let keys := (VStr "ARMORED KEY", VNull) in
  (completion (handler_keys (Config.read env) 0%nat) = Normal keys
   /\ truthy keys.2 = false)
  /\ List.filter is_decrypt_key (events (handler Scripted.EmptyObject env 0%nat)) = [].
Proof.
  intros env keys.
  assert (H1 : completion (handler_keys (Config.read env) 0%nat) = Normal keys)
    by (vm_compute; reflexivity).
  assert (Hp : truthy keys.2 = false) by reflexivity.
  split; [by split|].
  exact (no_passphrase_no_decryptKey Scripted.EmptyObject env keys 0%nat H1 Hp).
Defined.

End VaultRun.

(** ** The bucket with three objects, again *)

Section BucketObjects.
#[local] Existing Instances Scripted.bucket_secretsManager Scripted.bucket_s3
  Scripted.bucket_openpgp Scripted.bucket_json Scripted.trigger.

Lemma download_failure_skips_decryption_witness :
  let file := {| Key := "in/gone.gpg"; Size := 5; LastModified := 1700000009 |} in
  let cause := Error "The specified key does not exist." in
  (is_directory file = false /\ getObject "b" (Key file) 4%nat = (inl cause, 5%nat))
  /\ process_file "b" (VStr "ARMORED KEY") (VStr "hunter2") "out/" file [] 4%nat
     = {| completion :=
            Normal ([] ++ [Failed (Key file)
                             ("Failed to download file " +:+ Key file +:+ ": "
                                +:+ message cause) "failed"]);
          world := 5%nat; events := [EvGetObject "b" (Key file)] |}.
Proof.
  intros file cause.
  assert (Hdir : is_directory file = false) by reflexivity.
  assert (Hget : getObject "b" (Key file) 4%nat = (inl cause, 5%nat)) by reflexivity.
  split; [by split|].
  exact (download_failure_skips_decryption "b" (VStr "ARMORED KEY") (VStr "hunter2") "out/"
           file [] cause 4%nat 5%nat Hdir Hget).
Defined.

Lemma decrypted_object_fails_at_upload_witness :
  let file := {| Key := "in/a.gpg"; Size := 10; LastModified := 1700000001 |} in
  let result := {| Body := [Byte.x01; Byte.x68; Byte.x69] |} in
  let d := decryptFile (Body result) (VStr "ARMORED KEY") (VStr "hunter2") 2%nat in
  (is_directory file = false
   /\ getObject "b" (Key file) 1%nat = (inr result, 2%nat)
   /\ completion d = Normal [Byte.x68; Byte.x69])
  /\ process_file "b" (VStr "ARMORED KEY") (VStr "hunter2") "out/" file [] 1%nat
     = {| completion :=
            Normal ([] ++ [Failed (Key file)
                             "Failed to upload decrypted file: decryptedPrefix is not defined"
                             "failed"]);
          world := world d; events := EvGetObject "b" (Key file) :: events d |}
  /\ List.filter is_upload (EvGetObject "b" (Key file) :: events d) = [].
Proof.
  intros file result d.
  assert (Hdir : is_directory file = false) by reflexivity.
  assert (Hget : getObject "b" (Key file) 1%nat = (inr result, 2%nat)) by reflexivity.
  assert (Hd : completion d = Normal [Byte.x68; Byte.x69]) by (vm_compute; reflexivity).
  split; [by split_and!|].
  exact (decrypted_object_fails_at_upload "b" (VStr "ARMORED KEY") (VStr "hunter2") "out/"
           file [] result [Byte.x68; Byte.x69] 1%nat 2%nat Hdir Hget Hd).
Defined.

Lemma no_object_ever_succeeds_witness :
  List.filter is_upload (events (handler Scripted.EmptyObject Scripted.env 0%nat)) = []
  /\ exists msg results,
       completion (handler Scripted.EmptyObject Scripted.env 0%nat)
       = Normal {| statusCode := 200; body := SummaryBody msg results |}
       /\ length results = 3%nat
       /\ successCount results = 0%nat
       /\ failureCount results = length results.
Proof.
  destruct (no_object_ever_succeeds Scripted.EmptyObject Scripted.env 0%nat) as [Hup Hall].
  split; [exact Hup|].
  eexists _, _. split; [vm_compute; reflexivity|]. split; [reflexivity|].
  exact (proj2 (Hall _ _ eq_refl)).
Defined.

Lemma one_listing_call_witness :
  JSON_stringify Scripted.EmptyObject = inr "{}"
  /\ List.filter is_listing (events (handler Scripted.EmptyObject Scripted.env 0%nat))
     = [EvListObjectsV2 "b" (Some "in/")].
Proof.
  split; [reflexivity|].
  exact (one_listing_call Scripted.EmptyObject "{}" Scripted.env 0%nat eq_refl).
Defined.

End BucketObjects.

(** ** Listings that fail or hold no object *)

Section DeniedListing.
#[local] Existing Instances Scripted.denied_secretsManager Scripted.denied_s3
  Scripted.denied_openpgp Scripted.denied_json Scripted.trigger.

Lemma listing_failure_aborts_witness :
  let keys := (VStr "ARMORED KEY", VStr "hunter2") in
  let e := Error "Failed to list files from S3: Access Denied" in
  let cfg := Config.read Scripted.env in
  let o1 := handler_keys cfg 0%nat in
  let o2 := listEncryptedFiles (Config.bucketName cfg) (Config.prefix cfg) (world o1) in
  (JSON_stringify Scripted.EmptyObject = inr "{}"
   /\ completion o1 = Normal keys /\ completion o2 = Throw e)
  /\ handler Scripted.EmptyObject Scripted.env 0%nat
     = {| completion := Normal {| statusCode := 500;
                                  body := ErrorBody "Internal server error" (message e) |};
          world := world o2;
          events := events o1
                    ++ [EvListObjectsV2 (Config.bucketName cfg) (Config.prefix cfg)] |}
  /\ List.filter is_object_work (events (handler Scripted.EmptyObject Scripted.env 0%nat)) = []
  /\ exists cause, e = Error ("Failed to list files from S3: " +:+ message cause).
Proof.
  intros keys e cfg o1 o2.
  assert (Hser : JSON_stringify Scripted.EmptyObject = inr "{}") by reflexivity.
  assert (H1 : completion o1 = Normal keys) by (vm_compute; reflexivity).
  assert (H2 : completion o2 = Throw e) by (vm_compute; reflexivity).
  split; [by split_and!|].
  exact (listing_failure_aborts Scripted.EmptyObject "{}" Scripted.env keys e 0%nat
           Hser H1 H2).
Defined.

End DeniedListing.

Section MarkerListing.
#[local] Existing Instances Vault.marker_secretsManager Vault.marker_s3
  Vault.marker_openpgp Vault.marker_json Scripted.trigger.

Lemma listing_of_markers_witness :
  let keys := (VStr "ARMORED KEY", VStr "hunter2") in
  let cfg := Config.read Scripted.env in
  let o1 := handler_keys cfg 0%nat in
  let o2 := listEncryptedFiles (Config.bucketName cfg) (Config.prefix cfg) (world o1) in
  (JSON_stringify Scripted.EmptyObject = inr "{}"
   /\ completion o1 = Normal keys
   /\ completion o2 = Normal Vault.markers
   /\ Vault.markers <> []
   /\ Forall (fun file => is_directory file = true) Vault.markers)
  /\ handler Scripted.EmptyObject Scripted.env 0%nat
     = {| completion :=
            Normal {| statusCode := 200;
                      body := SummaryBody
                                ("Processed " +:+ JsString.of_nat (length Vault.markers)
                                   +:+ " files. Success: 0, Failures: 0") [] |};
          world := world o2; events := events o1 ++ events o2 |}.
Proof.
  intros keys cfg o1 o2.
  assert (Hser : JSON_stringify Scripted.EmptyObject = inr "{}") by reflexivity.
  assert (H1 : completion o1 = Normal keys) by (vm_compute; reflexivity).
  assert (H2 : completion o2 = Normal Vault.markers) by (vm_compute; reflexivity).
  assert (Hne : Vault.markers <> []) by discriminate.
  assert (Hall : Forall (fun file => is_directory file = true) Vault.markers)
    by (repeat constructor).
  split; [by split_and!|].
  exact (listing_of_markers Scripted.EmptyObject "{}" Scripted.env keys Vault.markers 0%nat
           Hser H1 H2 Hne Hall).
Defined.

End MarkerListing.

(** * The gpg variant *)

Lemma decryptedFileName_differs key : decryptedFileName key <> key.
Proof.
  intros Heq. apply (f_equal String.length) in Heq.
  destruct (JsString.endsWith key ".gpg") eqn:He.
  - destruct (endsWith_cut _ _ He) as [base ->].
    rewrite decryptedFileName_gpg, length_append in Heq. simpl in Heq. lia.
  - rewrite (decryptedFileName_other key He), length_append in Heq. simpl in Heq. lia.
Qed.

Section Variant.
Context {W : Type} `{!SecretsManager W, !S3 W, !GpgVariant.Shell W, !GpgVariant.NodeBuffer}.

Lemma variant_upload_run bucketName key decryptedContent (w : W) :
  let destination := decryptedFileName key in
  GpgVariant.uploadDecryptedFile bucketName key decryptedContent w
  = match upload bucketName destination decryptedContent "application/octet-stream" w with
    | (inr result, w') =>
        {| completion := Normal result; world := w';
           events := [EvUpload bucketName destination decryptedContent
                               "application/octet-stream"] |}
    | (inl cause, w') =>
        {| completion :=
             Throw (Error ("Failed to upload decrypted file: " +:+ message cause));
           world := w';
           events := [EvUpload bucketName destination decryptedContent
                               "application/octet-stream"] |}
    end.
Proof.
  intros destination. unfold GpgVariant.uploadDecryptedFile, try_catch, bind, call, ret, throw.
  cbv beta zeta. fold destination.
  by destruct (upload bucketName destination decryptedContent "application/octet-stream" w)
    as [[cause|result] w'].
Qed.

Lemma variant_decrypt_run encryptedData privateKey passphrase (w : W) :
  GpgVariant.decryptFileWithGPG encryptedData privateKey passphrase w
  = match GpgVariant.execAsync (GpgVariant.importCommand privateKey) w with
    | (inl cause, w1) =>
        {| completion := Throw (Error ("Failed to decrypt file: " +:+ message cause));
           world := w1; events := [] |}
    | (inr _, w1) =>
        match GpgVariant.execAsync (GpgVariant.decryptCommand encryptedData passphrase) w1 with
        | (inl cause, w2) =>
            {| completion := Throw (Error ("Failed to decrypt file: " +:+ message cause));
               world := w2; events := [] |}
        | (inr output, w2) =>
            {| completion := Normal (GpgVariant.Buffer_from (GpgVariant.stdout output));
               world := w2; events := [] |}
        end
    end.
Proof.
  unfold GpgVariant.decryptFileWithGPG, try_catch, bind, GpgVariant.exec, ret, throw.
  cbv beta zeta.
  destruct (GpgVariant.execAsync (GpgVariant.importCommand privateKey) w)
    as [[cause|out1] w1]; [done|]. cbn [completion world events].
  by destruct (GpgVariant.execAsync (GpgVariant.decryptCommand encryptedData passphrase) w1)
    as [[cause|out2] w2].
Qed.

(** X20. The variant writes each decrypted object beside its source and
    never over it: [uploadDecryptedFile] makes exactly one upload call, on
    the same bucket, under the whole source key with ".gpg" stripped or
    ".decrypted" appended, a key that always differs from the source key;
    it returns what S3 returns and rethrows a failure as
    "Failed to upload decrypted file: <cause>". *)
Theorem variant_upload_destination bucketName key decryptedContent (w : W) :
  let destination := decryptedFileName key in
  let o := GpgVariant.uploadDecryptedFile bucketName key decryptedContent w in
  events o = [EvUpload bucketName destination decryptedContent "application/octet-stream"]
  /\ destination <> key
  /\ match upload bucketName destination decryptedContent "application/octet-stream" w with
     | (inr result, w') => completion o = Normal result /\ world o = w'
     | (inl cause, w') =>
         completion o = Throw (Error ("Failed to upload decrypted file: " +:+ message cause))
         /\ world o = w'
     end.
Proof.
  intros destination o. subst o. rewrite variant_upload_run. fold destination.
  destruct (upload bucketName destination decryptedContent "application/octet-stream" w)
    as [[cause|result] w']; split_and!; try done; apply decryptedFileName_differs.
Qed.

(** X21. gpg decryption is two shell commands, import then decrypt: the
    function returns the bytes of the decrypt command's standard output
    exactly when both commands succeed, the second on the world the first
    left; when the import fails the decrypt command is not run; every
    failure is rethrown as "Failed to decrypt file: <cause>". *)
Theorem variant_decrypt_steps encryptedData privateKey passphrase (w : W) :
  let o := GpgVariant.decryptFileWithGPG encryptedData privateKey passphrase w in
  (forall plain,
      completion o = Normal plain <->
      exists out1 w1 out2,
        GpgVariant.execAsync (GpgVariant.importCommand privateKey) w = (inr out1, w1)
        /\ GpgVariant.execAsync (GpgVariant.decryptCommand encryptedData passphrase) w1
           = (inr out2, world o)
        /\ plain = GpgVariant.Buffer_from (GpgVariant.stdout out2))
  /\ (forall cause w1,
        GpgVariant.execAsync (GpgVariant.importCommand privateKey) w = (inl cause, w1) ->
        completion o = Throw (Error ("Failed to decrypt file: " +:+ message cause))
        /\ world o = w1)
  /\ (forall e, completion o = Throw e ->
        exists cause, e = Error ("Failed to decrypt file: " +:+ message cause)).
Proof.
  intros o. subst o. rewrite variant_decrypt_run.
  destruct (GpgVariant.execAsync (GpgVariant.importCommand privateKey) w)
    as [[cause1|out1] w1] eqn:H1.
  { split_and!.
    - intros plain. split; [done|]. by intros (?&?&?&?&_).
    - by intros cause w' [= <- <-].
    - intros e [= <-]. by eexists. }
  destruct (GpgVariant.execAsync (GpgVariant.decryptCommand encryptedData passphrase) w1)
    as [[cause2|out2] w2] eqn:H2.
  { split_and!; try done.
    - intros plain. split; [done|]. intros (?&?&?&[= <- <-]&Hd&_).
      cbn [world] in Hd. rewrite H2 in Hd. discriminate.
    - intros e [= <-]. by eexists. }
  split_and!; try done. intros plain. cbn [completion world]. split.
  - intros [= <-]. by exists out1, w1, out2.
  - intros (?&?&?&[= <- <-]&Hd&->). rewrite H2 in Hd. by injection Hd as <-.
Qed.

End Variant.

(** ** The variant's loop and handler *)

Section VariantLoop.
Context {W : Type} `{!SecretsManager W, !S3 W, !GpgVariant.Shell W, !GpgVariant.NodeBuffer}.
Variables (bucketName privateKey passphrase : string).

#[local] Abbreviation content_type := "application/octet-stream".

(** One iteration of the variant on an object, call by call. *)
Lemma variant_process_file_run file acc (w : W) :
  is_directory file = false ->
  let key := Key file in
  let finish rs w' evs :=
    {| completion := Normal (acc ++ rs); world := w'; events := evs |} in
  GpgVariant.process_file bucketName privateKey passphrase file acc w
  = match getObject bucketName key w with
    | (inl cause, w1) =>
        finish [Failed key ("Failed to download file " +:+ key +:+ ": " +:+ message cause)
                       "failed"]
               w1 [EvGetObject bucketName key]
    | (inr result, w1) =>
        match GpgVariant.execAsync (GpgVariant.importCommand privateKey) w1 with
        | (inl cause, w2) =>
            finish [Failed key ("Failed to decrypt file: " +:+ message cause) "failed"]
                   w2 [EvGetObject bucketName key]
        | (inr _, w2) =>
            match GpgVariant.execAsync
                    (GpgVariant.decryptCommand (Body result) passphrase) w2 with
            | (inl cause, w3) =>
                finish [Failed key ("Failed to decrypt file: " +:+ message cause) "failed"]
                       w3 [EvGetObject bucketName key]
            | (inr output, w3) =>
                let plain := GpgVariant.Buffer_from (GpgVariant.stdout output) in
                let sent := EvUpload bucketName (decryptedFileName key) plain content_type in
                match upload bucketName (decryptedFileName key) plain content_type w3 with
                | (inl cause, w4) =>
                    finish [Failed key ("Failed to upload decrypted file: " +:+ message cause)
                                   "failed"]
                           w4 [EvGetObject bucketName key; sent]
                | (inr result', w4) =>
                    finish [Processed key (UploadedKey result') (Size file) (LastModified file)]
                           w4 [EvGetObject bucketName key; sent]
                end
            end
        end
    end.
Proof.
  intros Hdir key finish. unfold is_directory in Hdir.
  unfold GpgVariant.process_file, GpgVariant.process_try. rewrite Hdir. fold key.
  unfold try_catch, bind. cbv beta zeta.
  rewrite downloadFileFromS3_run.
  destruct (getObject bucketName key w) as [[cause|result] w1];
    cbn [completion world events ret message]; [by rewrite ?app_nil_r|].
  rewrite variant_decrypt_run.
  destruct (GpgVariant.execAsync (GpgVariant.importCommand privateKey) w1)
    as [[cause|out1] w2]; cbn [completion world events ret message]; [by rewrite ?app_nil_r|].
  destruct (GpgVariant.execAsync (GpgVariant.decryptCommand (Body result) passphrase) w2)
    as [[cause|out2] w3]; cbn [completion world events ret message]; [by rewrite ?app_nil_r|].
  rewrite variant_upload_run. cbv zeta.
  by destruct (upload bucketName (decryptedFileName key)
                 (GpgVariant.Buffer_from (GpgVariant.stdout out2)) content_type w3)
    as [[cause|sent] w4]; cbn [completion world events ret message app];
    rewrite ?app_nil_r.
Qed.

Lemma variant_process_file_directory file acc (w : W) :
  is_directory file = true ->
  GpgVariant.process_file bucketName privateKey passphrase file acc w
  = {| completion := Normal acc; world := w; events := [] |}.
Proof.
  unfold is_directory, GpgVariant.process_file, GpgVariant.process_try. by intros ->.
Qed.

(** X22. In the variant an object does succeed: when its download, the
    two gpg commands and the upload succeed in that order, each on the
    world the previous left, the iteration appends a success result with
    the key S3 reports, and its only S3 calls are the download and one
    upload of the decrypt command's output to the destination key. *)
Theorem variant_object_succeeds file acc result out1 out2 sent (w w1 w2 w3 w4 : W) :
  let key := Key file in
  let plain := GpgVariant.Buffer_from (GpgVariant.stdout out2) in
  is_directory file = false ->
  getObject bucketName key w = (inr result, w1) ->
  GpgVariant.execAsync (GpgVariant.importCommand privateKey) w1 = (inr out1, w2) ->
  GpgVariant.execAsync (GpgVariant.decryptCommand (Body result) passphrase) w2
  = (inr out2, w3) ->
  upload bucketName (decryptedFileName key) plain content_type w3 = (inr sent, w4) ->
  GpgVariant.process_file bucketName privateKey passphrase file acc w
  = {| completion :=
         Normal (acc ++ [Processed key (UploadedKey sent) (Size file) (LastModified file)]);
       world := w4;
       events := [EvGetObject bucketName key;
                  EvUpload bucketName (decryptedFileName key) plain content_type] |}.
Proof.
  intros key plain Hdir Hget Himport Hdecrypt Hupload.
  rewrite (variant_process_file_run file acc w Hdir). cbv zeta. fold key.
  rewrite Hget, Himport, Hdecrypt. fold plain. by rewrite Hupload.
Qed.

(** What one iteration of the variant contributes. *)
Lemma variant_process_file_step file (w : W) :
  exists rs w1 evs,
    (forall acc,
        GpgVariant.process_file bucketName privateKey passphrase file acc w
        = {| completion := Normal (acc ++ rs); world := w1; events := evs |})
    /\ map originalFile rs = map Key (objects [file])
    /\ Forall (fun r => truthy (error r) = has_error_field r) rs
    /\ downloads evs = map (fun f => (bucketName, Key f)) (objects [file])
    /\ uploads evs `sublist_of`
         map (fun f => (bucketName, decryptedFileName (Key f))) (objects [file])
    /\ (length (List.filter (fun r => negb (has_error_field r)) rs) <= length (uploads evs))%nat
    /\ Forall (fun ev => on_bucket bucketName ev /\ is_object_work ev = true) evs.
Proof.
  unfold objects. cbn [List.filter]. destruct (is_directory file) eqn:Hdir; cbn [negb map].
  { exists [], w, []. split_and!; try done.
    intros acc. rewrite (variant_process_file_directory file acc w Hdir).
    by rewrite app_nil_r. }
  pose proof (fun acc => variant_process_file_run file acc w Hdir) as Hrun. cbv zeta in Hrun.
  destruct (getObject bucketName (Key file) w) as [[cause|result] w1].
  { eexists [_], _, [_]. split_and!; [exact Hrun|..];
      first [done | by repeat constructor | apply sublist_nil_l | cbn; lia]. }
  destruct (GpgVariant.execAsync (GpgVariant.importCommand privateKey) w1) as [[cause|out1] w2].
  { eexists [_], _, [_]. split_and!; [exact Hrun|..];
      first [done | by repeat constructor | apply sublist_nil_l | cbn; lia]. }
  destruct (GpgVariant.execAsync (GpgVariant.decryptCommand (Body result) passphrase) w2)
    as [[cause|out2] w3].
  { eexists [_], _, [_]. split_and!; [exact Hrun|..];
      first [done | by repeat constructor | apply sublist_nil_l | cbn; lia]. }
  destruct (upload bucketName (decryptedFileName (Key file))
              (GpgVariant.Buffer_from (GpgVariant.stdout out2)) content_type w3)
    as [[cause|sent] w4].
  - eexists [_], _, [_; _]. split_and!; [exact Hrun|..];
      first [done | by repeat constructor | cbn; lia].
  - eexists [_], _, [_; _]. split_and!; [exact Hrun|..];
      first [done | by repeat constructor | cbn; lia].
Qed.

Lemma variant_process_files_cons file rest acc acc' (w : W) :
  let o := GpgVariant.process_file bucketName privateKey passphrase file acc w in
  completion o = Normal acc' ->
  GpgVariant.process_files bucketName privateKey passphrase (file :: rest) acc w
  = {| completion :=
         completion (GpgVariant.process_files bucketName privateKey passphrase rest acc'
                       (world o));
       world :=
         world (GpgVariant.process_files bucketName privateKey passphrase rest acc' (world o));
       events :=
         events o
         ++ events (GpgVariant.process_files bucketName privateKey passphrase rest acc'
                      (world o)) |}.
Proof. intros o Hc. simpl. by apply bind_normal. Qed.

Lemma objects_cons file rest : objects (file :: rest) = objects [file] ++ objects rest.
Proof. unfold objects. simpl. by destruct (is_directory file). Qed.

(** The variant's loop. *)
Lemma variant_process_files_steps files (w : W) :
  exists rs w1 evs,
    (forall acc,
        GpgVariant.process_files bucketName privateKey passphrase files acc w
        = {| completion := Normal (acc ++ rs); world := w1; events := evs |})
    /\ map originalFile rs = map Key (objects files)
    /\ Forall (fun r => truthy (error r) = has_error_field r) rs
    /\ downloads evs = map (fun f => (bucketName, Key f)) (objects files)
    /\ uploads evs `sublist_of`
         map (fun f => (bucketName, decryptedFileName (Key f))) (objects files)
    /\ (length (List.filter (fun r => negb (has_error_field r)) rs) <= length (uploads evs))%nat
    /\ Forall (fun ev => on_bucket bucketName ev /\ is_object_work ev = true) evs.
Proof.
  revert w. induction files as [|file rest IH]; intros w.
  { exists [], w, []. split_and!; try done. intros acc. simpl. unfold ret.
    by rewrite app_nil_r. }
  destruct (variant_process_file_step file w)
    as (rs1 & w1 & evs1 & Hrun1 & Hk1 & Ht1 & Hd1 & Hu1 & Hs1 & Hb1).
  destruct (IH w1) as (rs2 & w2 & evs2 & Hrun2 & Hk2 & Ht2 & Hd2 & Hu2 & Hs2 & Hb2).
  exists (rs1 ++ rs2), w2, (evs1 ++ evs2). rewrite (objects_cons file rest). split_and!.
  - intros acc.
    rewrite (variant_process_files_cons file rest acc (acc ++ rs1) w) by now rewrite Hrun1.
    rewrite Hrun1. cbn [completion world events]. rewrite Hrun2.
    cbn [completion world events]. by rewrite app_assoc.
  - by rewrite !map_app, Hk1, Hk2.
  - by apply Forall_app.
  - unfold downloads in *. by rewrite omap_app, map_app, Hd1, Hd2.
  - unfold uploads in *. rewrite omap_app, map_app. by apply sublist_app.
  - unfold uploads in *. rewrite List.filter_app, omap_app, !length_app. lia.
  - by apply Forall_app.
Qed.

End VariantLoop.

Section VariantHandler.
Context {W : Type} `{!SecretsManager W, !S3 W, !GpgVariant.Shell W, !GpgVariant.NodeBuffer}
  {E : Type} `{!TriggerEvent E}.

#[local] Abbreviation the_bucket := "sftp-file-sync-vivien".
#[local] Abbreviation the_prefix := (Some "sync-files/").
#[local] Abbreviation the_passphrase env :=
  (env_or_default (env !! "PGP_PASSPHRASE") "default-passphrase").

Lemma downloads_cons ev evs :
  downloads (ev :: evs)
  = match download_of ev with
    | Some d => d :: downloads evs
    | None => downloads evs
    end.
Proof. reflexivity. Qed.

Lemma uploads_cons ev evs :
  uploads (ev :: evs)
  = match upload_of ev with
    | Some u => u :: uploads evs
    | None => uploads evs
    end.
Proof. reflexivity. Qed.

Lemma variant_key_events secretName (w : W) :
  events (GpgVariant.getPGPPrivateKey secretName w)
  = [EvGetSecretValue (Some (default "pgp-key" secretName))].
Proof.
  unfold GpgVariant.getPGPPrivateKey. rewrite rethrow_events.
  unfold bind, call, ret, throw. cbv beta zeta.
  destruct (getSecretValue _ w) as [[cause|[[s|]]] w']; simpl; try done.
  by destruct (negb (String.eqb s "")).
Qed.

(** Line 316 of [part_000] decides whether the [try] statement is
    entered, as line 177 of [index.js] does. *)
Lemma variant_handler_serialised (event : E) text env (w : W) :
  JSON_stringify event = inr text ->
  GpgVariant.handler event env w = GpgVariant.handler_try_catch env w.
Proof.
  intros Hser. unfold GpgVariant.handler, bind, lift. rewrite Hser.
  cbn [ret completion world events].
  by destruct (GpgVariant.handler_try_catch env w).
Qed.

(** The variant's [try] statement, stage by stage. *)
Lemma variant_handler_run env (w : W) :
  let o1 := GpgVariant.getPGPPrivateKey (Some "pgp-key") w in
  let o2 := listEncryptedFiles the_bucket the_prefix (world o1) in
  let failed e w' evs :=
    {| completion := Normal {| statusCode := 500;
                               body := ErrorBody "Internal server error" (message e) |};
       world := w'; events := evs |} in
  GpgVariant.handler_try_catch env w
  = match completion o1 with
    | Throw e => failed e (world o1) (events o1)
    | Normal privateKey =>
        match completion o2 with
        | Throw e => failed e (world o2) (events o1 ++ events o2)
        | Normal [] =>
            {| completion := Normal {| statusCode := 200;
                                       body := NoFilesBody "No files found to decrypt" [] |};
               world := world o2; events := events o1 ++ events o2 |}
        | Normal files =>
            let o3 := GpgVariant.process_files the_bucket privateKey (the_passphrase env)
                        files [] (world o2) in
            match completion o3 with
            | Normal results =>
                {| completion :=
                     Normal {| statusCode := 200;
                               body := SummaryBody (summary_message files results) results |};
                   world := world o3; events := events o1 ++ events o2 ++ events o3 |}
            | Throw e => failed e (world o3) (events o1 ++ events o2 ++ events o3)
            end
        end
    end.
Proof.
  intros o1 o2 failed. unfold GpgVariant.handler_try_catch, GpgVariant.handler_try, try_catch, bind, ret.
  cbv beta zeta. fold o1.
  destruct (completion o1) as [privateKey|e1]; cbn [completion world events];
    [|by rewrite app_nil_r].
  fold o2. destruct (completion o2) as [files|e2]; cbn [completion world events];
    [|by rewrite app_nil_r].
  destruct files as [|file rest]; cbn [length Nat.eqb completion world events].
  { by rewrite !app_nil_r. }
  destruct (completion (GpgVariant.process_files _ _ _ (file :: rest) [] (world o2)));
    cbn [completion world events]; by rewrite ?app_nil_r.
Qed.

(** X23. The variant's summary after a non-empty listing, in an
    invocation whose event serialises: one result per descriptor whose
    key does not end with '/', in listing order; each such object
    downloaded once; every upload of the invocation goes to the decrypted
    key of a listed object, in listing order; every result counted as a
    success stands for an upload that was made; and the two counts add up
    to the number of results. *)
Theorem variant_summary (event : E) text env privateKey files (w : W)
    (Hser : JSON_stringify event = inr text) :
  let o1 := GpgVariant.getPGPPrivateKey (Some "pgp-key") w in
  let o2 := listEncryptedFiles the_bucket the_prefix (world o1) in
  completion o1 = Normal privateKey ->
  completion o2 = Normal files ->
  files <> [] ->
  exists results,
    completion (GpgVariant.handler event env w)
    = Normal {| statusCode := 200;
                body := SummaryBody (summary_message files results) results |}
    /\ map originalFile results = map Key (objects files)
    /\ downloads (events (GpgVariant.handler event env w))
       = map (fun f => (the_bucket, Key f)) (objects files)
    /\ uploads (events (GpgVariant.handler event env w))
       `sublist_of` map (fun f => (the_bucket, decryptedFileName (Key f))) (objects files)
    /\ (successCount results <= length (uploads (events (GpgVariant.handler event env w))))%nat
    /\ (successCount results + failureCount results = length results)%nat.
Proof.
  intros o1 o2 H1 H2 Hne. rewrite !(variant_handler_serialised event text env w Hser).
  rewrite variant_handler_run. cbv zeta. fold o1 o2.
  rewrite H1, H2. destruct files as [|file rest]; [done|].
  destruct (variant_process_files_steps the_bucket privateKey (the_passphrase env)
              (file :: rest) (world o2))
    as (rs & w3 & evs & Hrun & Hkeys & Htruthy & Hdl & Hul & Hsucc & _).
  rewrite (Hrun []). cbn [completion world events app].
  pose proof (variant_key_events (Some "pgp-key") w) as Hk. fold o1 in Hk.
  pose proof (listEncryptedFiles_events the_bucket the_prefix (world o1)) as Hl. fold o2 in Hl.
  rewrite Hk, Hl. cbn [app]. rewrite !downloads_cons, !uploads_cons.
  cbn [download_of upload_of].
  exists rs. split_and!; try done.
  - unfold successCount.
    rewrite (filter_agree _ (fun r => negb (has_error_field r)) rs); [done|].
    eapply Forall_impl; [exact Htruthy|]. by intros r ->.
  - apply filter_partition.
Qed.

(** X24. The variant's configuration is fixed in its code: whatever the
    environment holds, every invocation whose event serialises asks
    Secrets Manager for the secret "pgp-key" once, lists "sync-files/" of
    the bucket "sftp-file-sync-vivien" once when the key was obtained and
    not at all otherwise, and makes every S3 call on that bucket. *)
Theorem variant_fixed_configuration (event : E) text env (w : W)
    (Hser : JSON_stringify event = inr text) :
  let evs := events (GpgVariant.handler event env w) in
  List.filter is_fetch evs = [EvGetSecretValue (Some "pgp-key")]
  /\ List.filter is_listing evs
     = match completion (GpgVariant.getPGPPrivateKey (Some "pgp-key") w) with
       | Normal _ => [EvListObjectsV2 the_bucket the_prefix]
       | Throw _ => []
       end
  /\ Forall (on_bucket the_bucket) evs.
Proof.
  intros evs. subst evs. rewrite (variant_handler_serialised event text env w Hser).
  rewrite variant_handler_run. cbv zeta.
  set (o1 := GpgVariant.getPGPPrivateKey (Some "pgp-key") w).
  set (o2 := listEncryptedFiles the_bucket the_prefix (world o1)).
  pose proof (variant_key_events (Some "pgp-key") w) as Hk. fold o1 in Hk. cbn in Hk.
  pose proof (listEncryptedFiles_events the_bucket the_prefix (world o1)) as Hl. fold o2 in Hl.
  destruct (completion o1) as [privateKey|e1]; cbn [completion world events].
  2:{ rewrite Hk. split_and!; try done. by repeat constructor. }
  destruct (completion o2) as [[|file rest]|e2]; cbn [completion world events];
    rewrite ?Hk, ?Hl; try (split_and!; [done|done|by repeat constructor]).
  destruct (variant_process_files_steps the_bucket privateKey (the_passphrase env)
              (file :: rest) (world o2))
    as (rs & w3 & evs & Hrun & _ & _ & _ & _ & _ & Hev).
  rewrite (Hrun []). cbn [completion world events app List.filter is_fetch is_listing].
  split_and!.
  - f_equal. apply filter_none. eapply Forall_impl; [exact Hev|]. intros ev [_ ?]. by destruct ev.
  - f_equal. apply filter_none. eapply Forall_impl; [exact Hev|]. intros ev [_ ?]. by destruct ev.
  - do 2 (constructor; [done|]). eapply Forall_impl; [exact Hev|]. by intros ev [? _].
Qed.

End VariantHandler.

(** ** Concrete run of the variant *)

Section VariantRun.
#[local] Existing Instances GpgVariant.script_secretsManager GpgVariant.script_s3
  GpgVariant.script_shell GpgVariant.script_buffer Scripted.trigger.

Lemma variant_upload_destination_witness :
  let o := GpgVariant.uploadDecryptedFile "b" "in/a.gpg" [Byte.x68; Byte.x69] 0%nat in
  events o = [EvUpload "b" "in/a" [Byte.x68; Byte.x69] "application/octet-stream"]
  /\ decryptedFileName "in/a.gpg" <> "in/a.gpg".
Proof.
  pose proof (variant_upload_destination "b" "in/a.gpg" [Byte.x68; Byte.x69] 0%nat) as H.
  cbv zeta in H. destruct H as (Hev & Hne & _). by split.
Defined.

Lemma variant_decrypt_steps_witness :
  completion (GpgVariant.decryptFileWithGPG [Byte.x01; Byte.x68; Byte.x69]
                "ARMORED KEY" "hunter2" 0%nat)
  = Normal [Byte.x68; Byte.x69].
Proof.
  apply (proj1 (variant_decrypt_steps [Byte.x01; Byte.x68; Byte.x69]
                  "ARMORED KEY" "hunter2" 0%nat)).
  by exists {| GpgVariant.stdout := ""; GpgVariant.stderr := "gpg: key imported" |}, 1%nat,
            {| GpgVariant.stdout := "hi"; GpgVariant.stderr := "" |}.
Defined.

Lemma variant_object_succeeds_witness :
  let file := {| Key := "sync-files/a.gpg"; Size := 10; LastModified := 1700000001 |} in
  let result := {| Body := [Byte.x01; Byte.x68; Byte.x69] |} in
  let out1 := {| GpgVariant.stdout := ""; GpgVariant.stderr := "gpg: key imported" |} in
  let out2 := {| GpgVariant.stdout := "hi"; GpgVariant.stderr := "" |} in
  let sent := {| Location := "https://sftp-file-sync-vivien.s3.amazonaws.com/sync-files/a";
                 UploadedKey := "sync-files/a" |} in
  let plain := GpgVariant.Buffer_from (GpgVariant.stdout out2) in
  (is_directory file = false
   /\ getObject "sftp-file-sync-vivien" (Key file) 2%nat = (inr result, 3%nat)
   /\ GpgVariant.execAsync (GpgVariant.importCommand "ARMORED KEY") 3%nat = (inr out1, 4%nat)
   /\ GpgVariant.execAsync (GpgVariant.decryptCommand (Body result) "hunter2") 4%nat
      = (inr out2, 5%nat)
   /\ upload "sftp-file-sync-vivien" (decryptedFileName (Key file)) plain
        "application/octet-stream" 5%nat = (inr sent, 6%nat))
  /\ GpgVariant.process_file "sftp-file-sync-vivien" "ARMORED KEY" "hunter2" file [] 2%nat
     = {| completion :=
            Normal ([] ++ [Processed (Key file) (UploadedKey sent) (Size file)
                                     (LastModified file)]);
          world := 6%nat;
          events := [EvGetObject "sftp-file-sync-vivien" (Key file);
                     EvUpload "sftp-file-sync-vivien" (decryptedFileName (Key file)) plain
                              "application/octet-stream"] |}.
Proof.
  intros file result out1 out2 sent plain.
  assert (Hdir : is_directory file = false) by reflexivity.
  assert (Hget : getObject "sftp-file-sync-vivien" (Key file) 2%nat = (inr result, 3%nat))
    by reflexivity.
  assert (Him : GpgVariant.execAsync (GpgVariant.importCommand "ARMORED KEY") 3%nat
                = (inr out1, 4%nat)) by reflexivity.
  assert (Hde : GpgVariant.execAsync (GpgVariant.decryptCommand (Body result) "hunter2") 4%nat
                = (inr out2, 5%nat)) by reflexivity.
  assert (Hup : upload "sftp-file-sync-vivien" (decryptedFileName (Key file)) plain
                  "application/octet-stream" 5%nat = (inr sent, 6%nat)) by reflexivity.
  split; [by split_and!|].
  exact (variant_object_succeeds "sftp-file-sync-vivien" "ARMORED KEY" "hunter2" file []
           result out1 out2 sent 2%nat 3%nat 4%nat 5%nat 6%nat Hdir Hget Him Hde Hup).
Defined.

Lemma variant_summary_witness :
  let o1 := GpgVariant.getPGPPrivateKey (Some "pgp-key") 0%nat in
  let o2 := listEncryptedFiles "sftp-file-sync-vivien" (Some "sync-files/") (world o1) in
  (JSON_stringify Scripted.EmptyObject = inr "{}"
   /\ completion o1 = Normal "ARMORED KEY"
   /\ completion o2 = Normal GpgVariant.files
   /\ GpgVariant.files <> [])
  /\ exists results,
       completion (GpgVariant.handler Scripted.EmptyObject GpgVariant.env 0%nat)
       = Normal {| statusCode := 200;
                   body := SummaryBody (summary_message GpgVariant.files results) results |}
       /\ map originalFile results = map Key (objects GpgVariant.files)
       /\ downloads (events (GpgVariant.handler Scripted.EmptyObject GpgVariant.env 0%nat))
          = map (fun f => ("sftp-file-sync-vivien", Key f)) (objects GpgVariant.files)
       /\ uploads (events (GpgVariant.handler Scripted.EmptyObject GpgVariant.env 0%nat))
          `sublist_of` map (fun f => ("sftp-file-sync-vivien", decryptedFileName (Key f)))
                           (objects GpgVariant.files)
       /\ (successCount results
           <= length (uploads (events (GpgVariant.handler Scripted.EmptyObject
                                         GpgVariant.env 0%nat))))%nat
       /\ (successCount results + failureCount results = length results)%nat.
Proof.
  intros o1 o2.
  assert (Hser : JSON_stringify Scripted.EmptyObject = inr "{}") by reflexivity.
  assert (H1 : completion o1 = Normal "ARMORED KEY") by (vm_compute; reflexivity).
  assert (H2 : completion o2 = Normal GpgVariant.files) by (vm_compute; reflexivity).
  assert (Hne : GpgVariant.files <> []) by discriminate.
  split; [by split_and!|].
  exact (variant_summary Scripted.EmptyObject "{}" GpgVariant.env "ARMORED KEY"
           GpgVariant.files 0%nat Hser H1 H2 Hne).
Defined.

Lemma variant_fixed_configuration_witness :
  let evs := events (GpgVariant.handler Scripted.EmptyObject GpgVariant.env 0%nat) in
  JSON_stringify Scripted.EmptyObject = inr "{}"
  /\ List.filter is_fetch evs = [EvGetSecretValue (Some "pgp-key")]
  /\ List.filter is_listing evs
     = [EvListObjectsV2 "sftp-file-sync-vivien" (Some "sync-files/")]
  /\ Forall (on_bucket "sftp-file-sync-vivien") evs.
Proof.
  split; [reflexivity|].
  exact (variant_fixed_configuration Scripted.EmptyObject "{}" GpgVariant.env 0%nat eq_refl).
Defined.

(** In this run one object succeeds, and it is the one that was uploaded. *)
Example variant_run_counts :
  exists results,
    completion (GpgVariant.handler Scripted.EmptyObject GpgVariant.env 0%nat)
    = Normal {| statusCode := 200;
                body := SummaryBody "Processed 4 files. Success: 1, Failures: 2" results |}
    /\ uploads (events (GpgVariant.handler Scripted.EmptyObject GpgVariant.env 0%nat))
       = [("sftp-file-sync-vivien", "sync-files/a")].
Proof. eexists. vm_compute. by split. Qed.

End VariantRun.
